(** * MoxField EDHREC Combo Display: the cache, the name normalizer, the
      combo fetcher and the result renderer of [moxfield_edhrec_combo.js]

    The user script is embedded function by function.  JavaScript strings
    are sequences of UTF-16 code units, values that come out of
    [response.json()] are untyped, the cache is a [Map] with time stamps,
    and the page is a tree of elements; each of these is modelled as the
    script sees it.  The two copies of the script under [src/] differ in
    comments only, so one embedding serves both. *)

From Stdlib Require Import ZArith NArith List String Ascii Bool Lia.
From stdpp Require Import gmap list.
Import ListNotations.

Local Open Scope N_scope.

(** ** JavaScript strings *)

Module JsString.

(** A string is the list of its UTF-16 code units. *)
Definition jsstring := list N.

(** An ASCII literal of the source, as code units. *)
Definition js (s : string) : jsstring :=
  map N_of_ascii (list_ascii_of_string s).

Definition inRange (lo hi u : N) : bool := (lo <=? u) && (u <=? hi).

Definition isUpperAZ (u : N) : bool := inRange 65 90 u.
Definition isLowerAZ (u : N) : bool := inRange 97 122 u.
Definition isDigit (u : N) : bool := inRange 48 57 u.

Definition hyphen : N := 45.

(** The class [\s] of a regular expression without the [u] flag, which is
    also the set [String.prototype.trim] removes: TAB, LF, VT, FF, CR,
    SPACE, NBSP, the space separators U+1680, U+2000..U+200A, U+202F,
    U+205F, U+3000, the line and paragraph separators U+2028 and U+2029,
    and U+FEFF. *)
Definition isSpace (u : N) : bool :=
  inRange 9 13 u || (u =? 32) || (u =? 160) || (u =? 5760)
  || inRange 8192 8202 u || (u =? 8232) || (u =? 8233) || (u =? 8239)
  || (u =? 8287) || (u =? 12288) || (u =? 65279).

(** [String.prototype.toLowerCase], one code unit at a time.  The table
    holds the ASCII capitals and the two code points outside ASCII whose
    lower-case form contains an ASCII letter: U+0130 (capital I with dot
    above, which becomes [i] followed by U+0307) and U+212A (the Kelvin
    sign, which becomes [k]).  Every other unit is left as it is: the
    lower-case form of a character outside ASCII that is not one of these
    two lies outside ASCII again, so [formatCardName], which deletes every
    unit outside [a-z0-9\s] right after lower-casing, cannot tell the
    difference. *)
Definition lowerUnit (u : N) : list N :=
  if isUpperAZ u then [u + 32]
  else if u =? 304 then [105; 775]
  else if u =? 8490 then [107]
  else [u].

Definition toLowerCase (s : jsstring) : jsstring := flat_map lowerUnit s.

(** [s.replace(/[^a-z0-9\s]/g, '')]: the units the class keeps. *)
Definition keptUnit (u : N) : bool := isLowerAZ u || isDigit u || isSpace u.

Definition stripOthers (s : jsstring) : jsstring := List.filter keptUnit s.

Fixpoint trimStart (s : jsstring) : jsstring :=
  match s with
  | u :: r => if isSpace u then trimStart r else s
  | [] => []
  end.

Definition trimEnd (s : jsstring) : jsstring := rev (trimStart (rev s)).

(** [String.prototype.trim]. *)
Definition trim (s : jsstring) : jsstring := trimEnd (trimStart s).

(** [s.replace(/\s+/g, '-')]: every maximal run of white space becomes one
    hyphen.  The hyphen is written when the last unit of a run is read. *)
Fixpoint hyphenateRuns (s : jsstring) : jsstring :=
  match s with
  | [] => []
  | u :: r =>
      if isSpace u then
        match r with
        | u' :: _ => if isSpace u' then hyphenateRuns r else hyphen :: hyphenateRuns r
        | [] => [hyphen]
        end
      else u :: hyphenateRuns r
  end.

(** [String.prototype.startsWith] and [String.prototype.includes] for a
    string argument (search from position 0). *)
Fixpoint startsWith (s p : jsstring) : bool :=
  match p, s with
  | [], _ => true
  | _ :: _, [] => false
  | a :: p', b :: s' => (a =? b) && startsWith s' p'
  end.

Fixpoint includes (s p : jsstring) : bool :=
  startsWith s p ||
  match s with
  | [] => false
  | _ :: s' => includes s' p
  end.

Definition eqb (s t : jsstring) : bool := bool_decide (s = t).

(** Decimal digits of a length, as [String(n)] prints a non-negative
    integer. *)
Definition digitUnit (d : N) : N := 48 + d.

Fixpoint decimalFuel (fuel : nat) (n : N) (acc : jsstring) : jsstring :=
  match fuel with
  | O => acc
  | S fuel' =>
      let acc' := digitUnit (n mod 10) :: acc in
      if n / 10 =? 0 then acc' else decimalFuel fuel' (n / 10) acc'
  end.

Definition decimal (n : N) : jsstring := decimalFuel (S (N.to_nat n)) n [].

(** [String(n)] for an integer [n] that a number holds exactly (magnitude
    up to 2^53): its decimal digits, with a sign when it is negative. *)
Definition decimalZ (n : Z) : jsstring :=
  if (n <? 0)%Z then hyphen :: decimal (Z.to_N (- n)) else decimal (Z.to_N n).

(** The conversion to a [USVString], which the setter of [a.href] applies
    to the string it is given: a surrogate code unit that is not part of a
    pair (a high surrogate followed by a low one) becomes U+FFFD. *)
Definition isHighSurrogate (u : N) : bool := inRange 55296 56319 u.
Definition isLowSurrogate (u : N) : bool := inRange 56320 57343 u.
Definition replacementUnit : N := 65533.

Fixpoint usvString (s : jsstring) : jsstring :=
  match s with
  | [] => []
  | u :: r =>
      if isHighSurrogate u then
        match r with
        | v :: r' =>
            if isLowSurrogate v then u :: v :: usvString r'
            else replacementUnit :: usvString r
        | [] => [replacementUnit]
        end
      else if isLowSurrogate u then replacementUnit :: usvString r
      else u :: usvString r
  end.

End JsString.

Import JsString.

(** ** Name normalizer *)

(** [formatCardName]: lower-case, delete what is not a lower-case letter,
    digit or white space, trim, and turn white-space runs into hyphens. *)
Definition formatCardName (cardName : jsstring) : jsstring :=
  hyphenateRuns (trim (stripOthers (toLowerCase cardName))).


(** ** JavaScript values *)

Module JsValue.

(** The values the script handles: what [response.json()] can deliver
    ([null], booleans, numbers, strings, arrays, objects) and [undefined],
    which reading a missing property yields.  Numbers are the integers a
    number holds exactly (magnitude up to 2^53), such as the [length] of
    an array; the script does no arithmetic on the numbers of a response.
    An object is the list of its own properties, each name once; none of
    them is a function, as in parsed JSON and in the object literals of
    the script. *)
#[warnings="-register-all"]
Inductive jsval : Type :=
| JUndefined
| JNull
| JBool (b : bool)
| JNum (n : Z)
| JStr (s : jsstring)
| JArr (elems : list jsval)
| JObj (props : list (jsstring * jsval)).

(** Evaluation either completes with a value or throws (every exception of
    the modelled code is a [TypeError], and no handler inspects it). *)
Inductive completion (A : Type) : Type :=
| Normal (a : A)
| Throw.
Arguments Normal {A} a.
Arguments Throw {A}.

Definition bind {A B} (c : completion A) (k : A -> completion B) : completion B :=
  match c with
  | Normal a => k a
  | Throw => Throw
  end.

Notation "x <- c ;; k" := (bind c (fun x => k))
  (at level 100, c at next level, right associativity).

(** [ToBoolean]. *)
Definition truthy (v : jsval) : bool :=
  match v with
  | JUndefined | JNull => false
  | JBool b => b
  | JNum n => negb (n =? 0)%Z
  | JStr s => match s with [] => false | _ => true end
  | JArr _ | JObj _ => true
  end.

(** [a || b]. *)
Definition orElse (a b : jsval) : jsval := if truthy a then a else b.

Fixpoint ownProperty (props : list (jsstring * jsval)) (name : jsstring) : jsval :=
  match props with
  | [] => JUndefined
  | (k, v) :: rest => if eqb k name then v else ownProperty rest name
  end.

(** [v.name] for the property names the script reads ([container],
    [json_dict], [cardlists], [cardviews], [sanitized], [header], [href],
    [combo], [results], [length]).  Reading a property of [undefined] or
    [null] throws.  None of these names but [length] is defined on a
    built-in prototype, so where there is no own property the read yields
    [undefined]; arrays and strings have their [length]. *)
Definition getProp (v : jsval) (name : jsstring) : completion jsval :=
  match v with
  | JUndefined | JNull => Throw
  | JObj props => Normal (ownProperty props name)
  | JArr elems =>
      Normal (if eqb name (js "length") then JNum (Z.of_nat (length elems)) else JUndefined)
  | JStr s =>
      Normal (if eqb name (js "length") then JNum (Z.of_nat (length s)) else JUndefined)
  | JBool _ | JNum _ => Normal JUndefined
  end.

(** [v?.name]. *)
Definition optProp (v : jsval) (name : jsstring) : jsval :=
  match v with
  | JUndefined | JNull => JUndefined
  | _ => match getProp v name with Normal x => x | Throw => JUndefined end
  end.

(** [v === s] for a string [s]. *)
Definition strictEqualsStr (v : jsval) (s : jsstring) : bool :=
  match v with
  | JStr t => eqb t s
  | _ => false
  end.

(** [elems.some(cb)]: stops at the first element the callback accepts. *)
Fixpoint someOf (cb : jsval -> completion bool) (elems : list jsval) : completion bool :=
  match elems with
  | [] => Normal false
  | e :: rest => b <- cb e ;; if (b : bool) then Normal true else someOf cb rest
  end.

(** [elems.filter(cb)]. *)
Fixpoint filterOf (cb : jsval -> completion bool) (elems : list jsval) : completion (list jsval) :=
  match elems with
  | [] => Normal []
  | e :: rest =>
      b <- cb e ;;
      kept <- filterOf cb rest ;;
      Normal (if (b : bool) then e :: kept else kept)
  end.

(** [elems.map(cb)] and [elems.forEach(cb)] with a callback that builds a
    value. *)
Fixpoint mapOf {A} (cb : jsval -> completion A) (elems : list jsval) : completion (list A) :=
  match elems with
  | [] => Normal []
  | e :: rest => x <- cb e ;; xs <- mapOf cb rest ;; Normal (x :: xs)
  end.

(** Calling an array method on [v]: a value that is not an array has no
    such method (a property of that name on a parsed object is not
    callable), so the call throws. *)
Definition asArray (v : jsval) : completion (list jsval) :=
  match v with
  | JArr elems => Normal elems
  | _ => Throw
  end.

(** [h.includes(s)] for a string [s]: substring search on a string,
    membership by [===] on an array, a [TypeError] on anything else. *)
Definition callIncludes (h : jsval) (s : jsstring) : completion bool :=
  match h with
  | JStr t => Normal (includes t s)
  | JArr elems => Normal (existsb (fun e => strictEqualsStr e s) elems)
  | _ => Throw
  end.

(** The string [ToString] yields where it completes, as a template literal
    and the setter of [textContent] apply it: an array joins the strings
    of its elements with commas ([null] and [undefined] count as empty),
    an object without a [toString] of its own inherits the one that prints
    [[object Object]]. *)
Fixpoint toString (v : jsval) : jsstring :=
  match v with
  | JUndefined => js "undefined"
  | JNull => js "null"
  | JBool true => js "true"
  | JBool false => js "false"
  | JNum n => decimalZ n
  | JStr s => s
  | JArr elems =>
      (fix join (l : list jsval) : jsstring :=
         match l with
         | [] => []
         | x :: r =>
             match x with
             | JUndefined | JNull => []
             | _ => toString x
             end ++
             match r with
             | [] => []
             | _ :: _ => 44 :: join r
             end
         end) elems
  | JObj _ => js "[object Object]"
  end.

Definition hasOwn (props : list (jsstring * jsval)) (name : jsstring) : bool :=
  existsb (fun kv => eqb (fst kv) name) props.

(** Whether [ToString] completes.  An own property [toString] hides the
    inherited method and is not callable, and no [valueOf] within reach
    yields a primitive ([Object.prototype.valueOf] returns the object, an
    own [valueOf] is not callable either), so converting such an object
    throws a [TypeError]; so does converting an array that holds one,
    since [join] converts every element but [null] and [undefined]. *)
Fixpoint printable (v : jsval) : bool :=
  match v with
  | JArr elems =>
      (fix all (l : list jsval) : bool :=
         match l with
         | [] => true
         | x :: r => printable x && all r
         end) elems
  | JObj props => negb (hasOwn props (js "toString"))
  | _ => true
  end.

(** [ToString]. *)
Definition ToString (v : jsval) : completion jsstring :=
  if printable v then Normal (toString v) else Throw.

End JsValue.

Import JsValue.

(** ** Expiring cache *)

Module TTLCache.

Record item : Type := { value : jsval; timestamp : Z }.

Section Cache.
Context {K : Type} `{Countable K}.

(** [this.ttl] in milliseconds and [this.cache], the [Map] of items. *)
Record t : Type := { ttl : Z; cache : gmap K item }.

(** [new TTLCache(ttlHours)]. *)
Definition make (ttlHours : Z) : t :=
  {| ttl := ttlHours * 60 * 60 * 1000; cache := ∅ |}.

(** [get(key)] when [Date.now()] reads [now]: the value and the cache
    as the call leaves it. *)
Definition get (now : Z) (key : K) (c : t) : jsval * t :=
  match cache c !! key with
  | None => (JNull, c)
  | Some it =>
      if (ttl c <? now - timestamp it)%Z
      then (JNull, {| ttl := ttl c; cache := delete key (cache c) |})
      else (value it, c)
  end.

(** [set(key, value)] when [Date.now()] reads [now]. *)
Definition set (now : Z) (key : K) (v : jsval) (c : t) : t :=
  {| ttl := ttl c;
     cache := <[key := {| value := v; timestamp := now |}]> (cache c) |}.
End Cache.

Arguments t K {_ _}.

(** [new TTLCache()]: the parameter defaults to one hour. *)
Definition default {K : Type} `{Countable K} : t K := make 1.

End TTLCache.

(** ** Combo fetcher *)

Definition s_container := js "container".
Definition s_json_dict := js "json_dict".
Definition s_cardlists := js "cardlists".
Definition s_cardviews := js "cardviews".
Definition s_sanitized := js "sanitized".
Definition s_header := js "header".
Definition s_href := js "href".
Definition s_combo := js "combo".
Definition s_results := js "results".
Definition s_length := js "length".

(** What [await fetch(url)] followed by [await response.json()] can do:
    the request fails, or a response arrives with a status and a body that
    either parses to a value or makes [json()] reject. *)
Inductive FetchOutcome : Type :=
| FetchRejected
| FetchResponse (status : Z) (body : option jsval).

(** [response.ok]: the status is in the range 200..299. *)
Definition ok (status : Z) : bool := ((200 <=? status) && (status <=? 299))%Z.

(** The script's global state that [fetchComboData] touches: the cache
    (the variable [cache]) and, for counting them, the requests issued so
    far, oldest first. *)
Record World : Type := { cache : TTLCache.t jsstring; requests : list jsstring }.

Definition initialWorld : World := {| cache := TTLCache.default; requests := [] |}.

Definition comboUrl (formattedName : jsstring) : jsstring :=
  js "https://json.edhrec.com/pages/combos/" ++ formattedName ++ js ".json".

(** The callback of [combos.filter]:
    [combo.cardviews && combo.cardviews.some(cardview =>
       cardview.sanitized === formattedName) || combo.header.includes(cardName)]. *)
Definition matchesCardview (formattedName : jsstring) (cardview : jsval) : completion bool :=
  sanitized <- getProp cardview s_sanitized ;;
  Normal (strictEqualsStr sanitized formattedName).

Definition keepCombo (cardName formattedName : jsstring) (combo : jsval) : completion bool :=
  cardviews <- getProp combo s_cardviews ;;
  viaCardviews <-
    (if truthy cardviews
     then views <- asArray cardviews ;; someOf (matchesCardview formattedName) views
     else Normal false) ;;
  if (viaCardviews : bool) then Normal true
  else header <- getProp combo s_header ;; callIncludes header cardName.

(** The callback of [.map]:
    [{header: combo.header, href: combo.href, results: combo.combo?.results || []}]. *)
Definition projectCombo (combo : jsval) : completion jsval :=
  header <- getProp combo s_header ;;
  href <- getProp combo s_href ;;
  inner <- getProp combo s_combo ;;
  Normal (JObj [(s_header, header); (s_href, href);
                (s_results, orElse (optProp inner s_results) (JArr []))]).

(** [const combos = data.container?.json_dict?.cardlists || []]. *)
Definition combosOf (data : jsval) : completion jsval :=
  container <- getProp data s_container ;;
  Normal (orElse (optProp (optProp container s_json_dict) s_cardlists) (JArr [])).

(** [let result = null; if (filteredCombos.length > 0) result = filteredCombos]. *)
Definition resultOf (filteredCombos : list jsval) : jsval :=
  match filteredCombos with
  | [] => JNull
  | _ :: _ => JArr filteredCombos
  end.

(** From [const combos = ...] to [result]: the value that is cached and
    returned when nothing throws. *)
Definition combosOfBody (cardName formattedName : jsstring) (data : jsval) : completion jsval :=
  combos <- combosOf data ;;
  groups <- asArray combos ;;
  kept <- filterOf (keepCombo cardName formattedName) groups ;;
  filteredCombos <- mapOf projectCombo kept ;;
  Normal (resultOf filteredCombos).

(** [fetchComboData(cardName)], run to completion: [net] answers the
    request, [tGet] and [tSet] are what [Date.now()] reads in [cache.get]
    and in [cache.set].  Console output is not modelled.  The function
    never throws: the lookup cannot, and the rest sits in [try]/[catch]. *)
Definition fetchComboData (net : jsstring -> FetchOutcome) (tGet tSet : Z)
    (cardName : jsstring) (w : World) : jsval * World :=
  let (cachedData, c1) := TTLCache.get tGet cardName (cache w) in
  if truthy cachedData then (cachedData, {| cache := c1; requests := requests w |})
  else
    let formattedName := formatCardName cardName in
    let url := comboUrl formattedName in
    let issued := requests w ++ [url] in
    let miss := (JNull, {| cache := c1; requests := issued |}) in
    match net url with
    | FetchRejected => miss
    | FetchResponse status body =>
        if negb (ok status) then
          if (status =? 403)%Z
          then (JNull, {| cache := TTLCache.set tSet cardName JNull c1; requests := issued |})
          else miss
        else
          match body with
          | None => miss
          | Some data =>
              match combosOfBody cardName formattedName data with
              | Throw => miss
              | Normal result =>
                  (result, {| cache := TTLCache.set tSet cardName result c1;
                              requests := issued |})
              end
          end
    end.

(** One call of the fetcher: the network's answers, the two clock
    readings and the card name; and a run of calls, one after the other. *)
Definition Call : Type := (((jsstring -> FetchOutcome) * Z) * Z) * jsstring.

Fixpoint runCalls (calls : list Call) (w : World) : World :=
  match calls with
  | [] => w
  | (net, tGet, tSet, name) :: rest =>
      runCalls rest (snd (fetchComboData net tGet tSet name w))
  end.

(** ** The page *)

Module Dom.

(** A node is a text node or an element with its tag name (lower case),
    its [id], its class list, its other attributes in the order they were
    set, and its children. *)
#[warnings="-register-all"]
Inductive node : Type :=
| TextNode (data : jsstring)
| Element (tagName id : jsstring) (classList : list jsstring)
    (attributes : list (jsstring * jsstring)) (childNodes : list node).

(** The document: its top-level nodes, in document order. *)
Definition document := list node.

(** The first node in document order (a node before its descendants, these
    before its later siblings) that [p] accepts. *)
Fixpoint findNode (p : node -> bool) (n : node) : option node :=
  if p n then Some n
  else
    match n with
    | TextNode _ => None
    | Element _ _ _ _ children =>
        (fix go (l : list node) : option node :=
           match l with
           | [] => None
           | c :: r => match findNode p c with
                       | Some x => Some x
                       | None => go r
                       end
           end) children
    end.

Fixpoint findFirst (p : node -> bool) (l : list node) : option node :=
  match l with
  | [] => None
  | c :: r => match findNode p c with
              | Some x => Some x
              | None => findFirst p r
              end
  end.

(** Replace the first node in document order that [p] accepts by the nodes
    [f] makes of it; [None] when [p] accepts no node.  [rewriteIn] works
    below a node, [rewriteFirst] in a list of siblings. *)
Fixpoint rewriteIn (p : node -> bool) (f : node -> list node) (n : node) : option node :=
  match n with
  | TextNode _ => None
  | Element tag i classes attrs children =>
      option_map (Element tag i classes attrs)
        ((fix go (l : list node) : option (list node) :=
            match l with
            | [] => None
            | c :: r =>
                if p c then Some (f c ++ r)
                else match rewriteIn p f c with
                     | Some c' => Some (c' :: r)
                     | None => option_map (cons c) (go r)
                     end
            end) children)
  end.

Fixpoint rewriteFirst (p : node -> bool) (f : node -> list node) (l : list node)
    : option (list node) :=
  match l with
  | [] => None
  | c :: r =>
      if p c then Some (f c ++ r)
      else match rewriteIn p f c with
           | Some c' => Some (c' :: r)
           | None => option_map (cons c) (rewriteFirst p f r)
           end
  end.

Definition hasId (i : jsstring) (n : node) : bool :=
  match n with
  | Element _ i' _ _ _ => eqb i' i
  | TextNode _ => false
  end.

Definition hasClass (c : jsstring) (classes : list jsstring) : bool :=
  existsb (eqb c) classes.

(** [document.getElementById(i)]. *)
Definition getElementById (i : jsstring) (doc : document) : option node :=
  findFirst (hasId i) doc.

(** [e.remove()] for the element [getElementById(i)] returned. *)
Definition removeById (i : jsstring) (doc : document) : document :=
  match rewriteFirst (hasId i) (fun _ => []) doc with
  | Some doc' => doc'
  | None => doc
  end.

(** [e.appendChild(child)]. *)
Definition withChild (child : node) (e : node) : list node :=
  match e with
  | Element tag i classes attrs children => [Element tag i classes attrs (children ++ [child])]
  | TextNode _ => [e]
  end.

(** [e.appendChild(child)] for the element [e] a query for [p] returned. *)
Definition appendChildTo (p : node -> bool) (child : node) (doc : document) : document :=
  match rewriteFirst p (withChild child) doc with
  | Some doc' => doc'
  | None => doc
  end.

(** The number of elements with the given [id], anywhere in the tree. *)
Fixpoint countIn (p : node -> bool) (n : node) : nat :=
  ((if p n then 1 else 0) +
   match n with
   | TextNode _ => 0
   | Element _ _ _ _ children =>
       (fix go (l : list node) : nat :=
          match l with
          | [] => 0
          | c :: r => countIn p c + go r
          end) children
   end)%nat.

Fixpoint count (p : node -> bool) (l : list node) : nat :=
  match l with
  | [] => 0%nat
  | c :: r => (countIn p c + count p r)%nat
  end.

(** The children of [e] once [e.textContent = v] has completed: [null] and
    [undefined] stand for the empty string, any other value for its
    [ToString]; the children become one text node, or none when the string
    is empty. *)
Definition textContentOf (v : jsval) : list node :=
  match v with
  | JUndefined | JNull => []
  | _ => match toString v with
         | [] => []
         | s => [TextNode s]
         end
  end.

(** [e.textContent = v]: the conversion of [v] can throw, and then the
    assignment does not happen. *)
Definition setTextContent (v : jsval) : completion (list node) :=
  match v with
  | JUndefined | JNull => Normal (textContentOf v)
  | _ => s <- ToString v ;; Normal (textContentOf v)
  end.

End Dom.

Import Dom.

(** ** Result renderer *)

Definition panelId : jsstring := js "moxfield-combo-display".

(** The selector [aside.deckview-image-container.is-owner]. *)
Definition isAnchor (n : node) : bool :=
  match n with
  | Element tag _ classes _ _ =>
      eqb tag (js "aside") && hasClass (js "deckview-image-container") classes
      && hasClass (js "is-owner") classes
  | TextNode _ => false
  end.

Definition s_style := js "style".

(** The declarations of the [cssText] literals, in source order. *)
Definition comboDisplayStyle := js
  "max-width: 230px; width: 100%; background: inherit; margin-inline: auto; margin-top: 1rem;".
Definition headerElementStyle := js
  "margin: 0 0 0.75rem 0; font-size: 1rem; font-weight: 600; line-height: 1.5;".
Definition comboSectionStyle := js
  "max-height: 24rem; width: 100%; max-width: 100%; overflow-y: auto; margin-inline: auto; margin-top: 0.5rem; gap: 0.5rem;".
Definition comboContainerStyle := js
  "border-radius: 0.375rem; transition: all 0.15s ease-in-out; text-decoration: none; width: 100%; border-style: solid; border-width: 1px; padding: 0.5rem;".
Definition comboHeaderStyle := js
  "display: block; text-decoration: none; font-weight: 500; font-size: 0.875rem; line-height: 1.25rem; margin-bottom: 0.5rem; cursor: pointer; transition: color 0.15s ease-in-out;".
Definition resultsListStyle := js
  "margin: 0; padding-left: 1.25rem; font-size: 0.8125rem; line-height: 1.25rem; list-style-type: disc;".
Definition resultItemStyle := js
  "margin-bottom: 0.25rem; line-height: 1.375;".

(** The callback of [combo.results.forEach]: one [li] per result. *)
Definition resultItem (result : jsval) : completion node :=
  text <- setTextContent result ;;
  Normal (Element (js "li") [] [] [(s_style, resultItemStyle)] text).

(** The callback of [comboData.forEach]: one [a] per combo, holding the
    header [span] and the [ul] of results.  The template literal converts
    [combo.href] to a string, and the setter of [href] stores the
    [USVString] of what it is given in the attribute. *)
Definition comboContainer (combo : jsval) : completion node :=
  href <- getProp combo s_href ;;
  path <- ToString href ;;
  header <- getProp combo s_header ;;
  headerNodes <- setTextContent header ;;
  let comboHeader :=
    Element (js "span") [] [js "text-primary"] [(s_style, comboHeaderStyle)]
      headerNodes in
  results <- getProp combo s_results ;;
  elems <- asArray results ;;
  items <- mapOf resultItem elems ;;
  let resultsList :=
    Element (js "ul") [] [js "text-secondary"] [(s_style, resultsListStyle)] items in
  Normal (Element (js "a") [] [js "border-primary"]
            [(s_href, usvString (js "https://edhrec.com" ++ path));
             (js "target", js "_blank");
             (s_style, comboContainerStyle)]
            [comboHeader; resultsList]).

(** The header line [Combo For ${cardName} (${comboData.length})], where
    the conversion of the length completes. *)
Definition headerText (cardName : jsstring) (len : jsval) : jsstring :=
  js "Combo For " ++ cardName ++ js " (" ++ toString len ++ js ")".

(** The panel [comboDisplay] of the given header line and entries.  The
    header element is appended twice in the source; appending a node that
    is already the last child leaves it there once. *)
Definition comboDisplay (text : jsstring) (entries : list node) : node :=
  let headerElement :=
    Element (js "span") [] [] [(s_style, headerElementStyle)] [TextNode text] in
  let comboSection :=
    Element (js "div") [] [js "d-grid"] [(s_style, comboSectionStyle)] entries in
  Element (js "div") panelId [] [(s_style, comboDisplayStyle)] [headerElement; comboSection].

(** How a call of the renderer ends: it returns, or an exception leaves it;
    either way with the page as the call left it. *)
Inductive RenderOutcome : Type :=
| Returned (doc : document)
| Thrown (doc : document).

Definition pageAfter (o : RenderOutcome) : document :=
  match o with
  | Returned doc | Thrown doc => doc
  end.

(** [displayComboResults(cardName, comboData)] on the page [doc]. *)
Definition displayComboResults (cardName : jsstring) (comboData : jsval)
    (doc : document) : RenderOutcome :=
  let doc1 :=
    match getElementById panelId doc with
    | Some existingDisplay => removeById panelId doc
    | None => doc
    end in
  if negb (truthy comboData) then Returned doc1
  else
    match findFirst isAnchor doc1 with
    | None => Returned doc1
    | Some asideElement =>
        match
          (len <- getProp comboData s_length ;;
           shown <- ToString len ;;
           combos <- asArray comboData ;;
           entries <- mapOf comboContainer combos ;;
           Normal (comboDisplay (headerText cardName len) entries))
        with
        | Throw => Thrown doc1
        | Normal panel => Returned (appendChildTo isAnchor panel doc1)
        end
    end.

(** ** Vocabulary of the statements *)

(** A string with its hyphens deleted. *)
Definition withoutHyphens (s : jsstring) : jsstring :=
  List.filter (fun u => negb (u =? hyphen)) s.

(** A Combo Record: an object with the properties [header], [href] and
    [results], in this order. *)
Definition isComboRecord (v : jsval) : Prop :=
  exists header href results,
    v = JObj [(s_header, header); (s_href, href); (s_results, results)].

(** What a cache entry may hold: [null] or a non-empty array of Combo
    Records. *)
Definition validEntry (v : jsval) : Prop :=
  v = JNull \/ exists records, v = JArr records /\ records <> [] /\ Forall isComboRecord records.

Definition cacheInvariant (c : TTLCache.t jsstring) : Prop :=
  map_Forall (fun _ it => validEntry (TTLCache.value it)) (TTLCache.cache c).

(** The two ways a group qualifies: (a) it has a [cardviews] list with an
    entry whose [sanitized] is the slug, (b) its header is a string that
    contains the raw card name. *)
Definition hasMatchingCardview (formattedName : jsstring) (group : jsval) : bool :=
  match getProp group s_cardviews with
  | Normal (JArr views) =>
      existsb (fun cardview =>
                 match getProp cardview s_sanitized with
                 | Normal v => strictEqualsStr v formattedName
                 | Throw => false
                 end) views
  | _ => false
  end.

Definition headerContains (cardName : jsstring) (group : jsval) : bool :=
  match getProp group s_header with
  | Normal (JStr header) => includes header cardName
  | _ => false
  end.

Definition qualifies (cardName formattedName : jsstring) (group : jsval) : bool :=
  hasMatchingCardview formattedName group || headerContains cardName group.

Definition headerIsString (group : jsval) : bool :=
  match getProp group s_header with
  | Normal (JStr _) => true
  | _ => false
  end.

Definition isNullish (v : jsval) : bool :=
  match v with
  | JUndefined | JNull => true
  | _ => false
  end.

(** The group's [cardviews] is falsy (absent, [null], ...) or an array
    none of whose entries is [null]. *)
Definition cardviewsUsable (group : jsval) : bool :=
  match getProp group s_cardviews with
  | Normal v =>
      if truthy v then
        match v with
        | JArr views => forallb (fun cardview => negb (isNullish cardview)) views
        | _ => false
        end
      else true
  | Throw => false
  end.

(** The record with a group's [header], [href] and [results] (an empty
    list where the group has no results). *)
Definition field (group : jsval) (name : jsstring) : jsval :=
  match group with
  | JObj props => ownProperty props name
  | _ => JUndefined
  end.

Definition recordOf (group : jsval) : jsval :=
  JObj [(s_header, field group s_header); (s_href, field group s_href);
        (s_results, orElse (optProp (field group s_combo) s_results) (JArr []))].

(** Every node, for counting the nodes of a page. *)
Definition anyNode : node -> bool := fun _ => true.

(** A test that looks at an element's own tag, id, classes and
    attributes, not at its children. *)
Definition shallow (q : node -> bool) : Prop :=
  forall tag i classes attrs children children',
    q (Element tag i classes attrs children) = q (Element tag i classes attrs children').

(** The panel the renderer builds for no combos at all: the header line
    with the count 0 and an empty grid. *)
Definition emptyPanel (cardName : jsstring) : node :=
  Element (js "div") panelId [] [(s_style, comboDisplayStyle)]
    [Element (js "span") [] [] [(s_style, headerElementStyle)]
       [TextNode (js "Combo For " ++ cardName ++ js " (0)")];
     Element (js "div") [] [js "d-grid"] [(s_style, comboSectionStyle)] []].

(** ** Sample inputs *)

(** A network that answers every request with HTTP 403. *)
Definition net403 : jsstring -> FetchOutcome := fun _ => FetchResponse 403 None.

(** A network that answers every request with HTTP 500. *)
Definition net500 : jsstring -> FetchOutcome := fun _ => FetchResponse 500 None.

(** A world whose cache holds one record under "x", written at time 0. *)
Definition sampleRecord : jsval :=
  JObj [(s_header, JStr (js "x + y")); (s_href, JStr (js "/combos/1-2"));
        (s_results, JArr [JStr (js "Infinite mana")])].

Definition worldWithEntry : World :=
  {| cache := TTLCache.set 0 (js "x") (JArr [sampleRecord]) TTLCache.default;
     requests := [] |}.

(** A page with two elements that carry the panel's id. *)
Definition twoPanels : document :=
  [Element (js "div") panelId [] [] []; Element (js "div") panelId [] [] []].

(** A page whose anchor holds a panel left by an earlier call. *)
Definition pageWithPanel : document :=
  [Element (js "aside") [] [js "deckview-image-container"; js "is-owner"] []
     [Element (js "div") panelId [] [] []]].

(** A response body with two groups: the first lists the card
    "dockside-extortionist" among its cardviews, the second neither lists
    it nor names it in its header. *)
Definition sampleGroups : list jsval :=
  [JObj [(s_header, JStr (js "Dockside Extortionist + Temur Sabertooth"));
         (s_href, JStr (js "/combos/1529-1887"));
         (s_cardviews, JArr [JObj [(s_sanitized, JStr (js "dockside-extortionist"))];
                             JObj [(s_sanitized, JStr (js "temur-sabertooth"))]]);
         (s_combo, JObj [(s_results, JArr [JStr (js "Infinite mana")])])];
   JObj [(s_header, JStr (js "Basalt Monolith + Rings of Brighthearth"));
         (s_href, JStr (js "/combos/450-3035"));
         (s_cardviews, JArr [JObj [(s_sanitized, JStr (js "basalt-monolith"))]])]].

Definition sampleBody : jsval :=
  JObj [(s_container, JObj [(s_json_dict, JObj [(s_cardlists, JArr sampleGroups)])])].

(** The units of a slug: lower-case letters, digits and the hyphen. *)
Definition slugUnit (u : N) : bool := isLowerAZ u || isDigit u || (u =? hyphen).
Definition alnumUnit (u : N) : bool := isLowerAZ u || isDigit u.


(** ** Card identity resolver *)

Module Resolver.

(** [[^-]+-] read from the start of [s]: the units up to the first hyphen,
    when there is a hyphen ([None] when the input ends first).  The run
    may be empty here; the caller asks for one unit at least. *)
Fixpoint hashRun (s : jsstring) : option jsstring :=
  match s with
  | [] => None
  | u :: r => if u =? hyphen then Some [] else option_map (cons u) (hashRun r)
  end.

Definition cardPrefix : jsstring := js "/card-".

(** The regular expression [/\/card-([^-]+)-/] tried at the start of [s]:
    the capture group when it matches there.  The greedy [[^-]+] takes the
    whole run of units that are no hyphen, and giving units back cannot
    help, since the next unit must be a hyphen. *)
Definition matchHere (s : jsstring) : option jsstring :=
  if startsWith s cardPrefix then
    match hashRun (drop 6 s) with
    | Some (u :: r) => Some (u :: r)
    | _ => None
    end
  else None.

(** [extractDataHashFromImageSrc(src)]: [match[1]] of the leftmost match,
    [null] when there is none. *)
Fixpoint extractDataHashFromImageSrc (src : jsstring) : jsval :=
  match matchHere src with
  | Some h => JStr h
  | None =>
      match src with
      | [] => JNull
      | _ :: r => extractDataHashFromImageSrc r
      end
  end.

(** An attribute of an element; for an [img], the entry [src] stands for
    what the property [src] reads (the URL, resolved), the empty string
    when there is none. *)
Fixpoint lookupAttribute (attrs : list (jsstring * jsstring)) (name : jsstring) : option jsstring :=
  match attrs with
  | [] => None
  | (k, v) :: rest => if eqb k name then Some v else lookupAttribute rest name
  end.

Definition srcOf (n : node) : jsstring :=
  match n with
  | Element _ _ _ attrs _ =>
      match lookupAttribute attrs (js "src") with
      | Some v => v
      | None => []
      end
  | TextNode _ => []
  end.

Definition childrenOf (n : node) : list node :=
  match n with
  | Element _ _ _ _ children => children
  | TextNode _ => []
  end.

(** The getter [textContent] of a node: the text of its descendants, in
    document order. *)
Fixpoint textContent (n : node) : jsstring :=
  match n with
  | TextNode d => d
  | Element _ _ _ _ children =>
      (fix go (l : list node) : jsstring :=
         match l with
         | [] => []
         | c :: r => textContent c ++ go r
         end) children
  end.

(** The selectors [img.deckview-image.img-card],
    [.decklist-card-phantomsearch] and [a.table-deck-row-link]. *)
Definition isPreviewImage (n : node) : bool :=
  match n with
  | Element tag _ classes _ _ =>
      eqb tag (js "img") && hasClass (js "deckview-image") classes
      && hasClass (js "img-card") classes
  | TextNode _ => false
  end.

Definition isPhantomSearch (n : node) : bool :=
  match n with
  | Element _ _ classes _ _ => hasClass (js "decklist-card-phantomsearch") classes
  | TextNode _ => false
  end.

Definition isDeckLink (n : node) : bool :=
  match n with
  | Element tag _ classes _ _ =>
      eqb tag (js "a") && hasClass (js "table-deck-row-link") classes
  | TextNode _ => false
  end.

(** [e.textContent?.trim() || ''] for an element [e]. *)
Definition trimmedText (e : node) : jsstring := trim (textContent e).

(** [cardName || null]. *)
Definition orNull (cardName : jsstring) : jsval :=
  match cardName with
  | [] => JNull
  | _ :: _ => JStr cardName
  end.

Section SelectorEngine.

(** The selector of [findCardNameByHash] is built from the hash at run
    time.  What [document.querySelector] makes of that text is left to the
    browser: [queryDataHash hash doc] is the element found for
    [[data-hash="${hash}"]] ([None] for [null]), or an exception for a
    text that is no selector. *)
Variable queryDataHash : jsstring -> document -> completion (option node).

(** [findCardNameByHash(hash)] on the page [doc]. *)
Definition findCardNameByHash (hash : jsstring) (doc : document) : completion jsval :=
  found <- queryDataHash hash doc ;;
  match found with
  | Some element =>
      let viaPhantom :=
        match findFirst isPhantomSearch (childrenOf element) with
        | Some phantomDiv => trimmedText phantomDiv
        | None => []
        end in
      let cardName :=
        match viaPhantom with
        | [] =>
            match findFirst isDeckLink (childrenOf element) with
            | Some deckLink => trimmedText deckLink
            | None => []
            end
        | _ :: _ => viaPhantom
        end in
      Normal (orNull cardName)
  | None => Normal JNull
  end.

(** [getCurrentDisplayCardName()] on the page [doc]. *)
Definition getCurrentDisplayCardName (doc : document) : completion jsval :=
  match findFirst isPreviewImage doc with
  | Some imgElement =>
      match srcOf imgElement with
      | [] => Normal JNull
      | src =>
          match extractDataHashFromImageSrc src with
          | JStr dataHash =>
              if truthy (JStr dataHash) then findCardNameByHash dataHash doc
              else Normal JNull
          | _ => Normal JNull
          end
      end
  | None => Normal JNull
  end.

End SelectorEngine.

(** The engine for a hash without quote, backslash or line break, where
    the selector means: the attribute [data-hash] is the hash. *)
Definition hasDataHash (hash : jsstring) (n : node) : bool :=
  match n with
  | Element _ _ _ attrs _ =>
      match lookupAttribute attrs (js "data-hash") with
      | Some v => eqb v hash
      | None => false
      end
  | TextNode _ => false
  end.

Definition byDataHash (hash : jsstring) (doc : document) : completion (option node) :=
  Normal (findFirst (hasDataHash hash) doc).

End Resolver.

Import Resolver.

(** ** One cycle: resolve, fetch, render *)

(** How a call of [fetchCombo] ends: no card name was found and nothing
    was done, the resolver threw, or the renderer was called. *)
Inductive CycleOutcome : Type :=
| Idle
| ResolverThrew
| Rendered (o : RenderOutcome).

(** [fetchCombo()], run to completion: the name is read from the page
    [doc]; the renderer works on [docLater], the page as it is when the
    fetcher has returned. *)
Definition fetchCombo (queryDataHash : jsstring -> document -> completion (option node))
    (net : jsstring -> FetchOutcome) (tGet tSet : Z)
    (doc docLater : document) (w : World) : CycleOutcome * World :=
  match getCurrentDisplayCardName queryDataHash doc with
  | Throw => (ResolverThrew, w)
  | Normal name =>
      if truthy name then
        match name with
        | JStr cardName =>
            let (combo, w') := fetchComboData net tGet tSet cardName w in
            (Rendered (displayComboResults cardName combo docLater), w')
        | _ => (Idle, w)
        end
      else (Idle, w)
  end.

(** ** Vocabulary of the further statements *)

(** A slug made of words: it starts and ends with a letter or digit, and
    every hyphen stands between two of them. *)
Fixpoint slugWords (s : jsstring) : bool :=
  match s with
  | [] => false
  | u :: r =>
      alnumUnit u &&
      match r with
      | [] => true
      | v :: r' => if v =? hyphen then slugWords r' else slugWords r
      end
  end.

(** No white space at either end. *)
Definition trimmedString (s : jsstring) : Prop :=
  (forall u, head s = Some u -> isSpace u = false)
  /\ (forall u, last s = Some u -> isSpace u = false).

(** The entry the renderer builds for a record whose [results] is the
    array [results], where every conversion to a string completes. *)
Definition entryOf (header href : jsval) (results : list jsval) : node :=
  Element (js "a") [] [js "border-primary"]
    [(s_href, usvString (js "https://edhrec.com" ++ toString href));
     (js "target", js "_blank");
     (s_style, comboContainerStyle)]
    [Element (js "span") [] [js "text-primary"] [(s_style, comboHeaderStyle)]
       (textContentOf header);
     Element (js "ul") [] [js "text-secondary"] [(s_style, resultsListStyle)]
       (map (fun r => Element (js "li") [] [] [(s_style, resultItemStyle)] (textContentOf r))
            results)].

(** A record as the fetcher builds it, with an array for its results. *)
Definition comboRecord (header href : jsval) (results : list jsval) : jsval :=
  JObj [(s_header, header); (s_href, href); (s_results, JArr results)].

(** What the resolver may return: [null], or a name that is not empty and
    has no white space at either end. *)
Definition isCardName (v : jsval) : Prop :=
  v = JNull \/ exists name, v = JStr name /\ name <> [] /\ trimmedString name.

(** The records of a list of (header, href, results) triples, and the
    entries the renderer builds for them. *)
Definition recordsOf (items : list (jsval * jsval * list jsval)) : list jsval :=
  map (fun '(header, href, results) => comboRecord header href results) items.

Definition entriesOf (items : list (jsval * jsval * list jsval)) : list node :=
  map (fun '(header, href, results) => entryOf header href results) items.

(** A string, a boolean, [null] or [undefined]: a value whose conversion
    to a string cannot throw and prints no number. *)
Definition textual (v : jsval) : bool :=
  match v with
  | JStr _ | JBool _ | JNull | JUndefined => true
  | JNum _ | JArr _ | JObj _ => false
  end.

(** A (header, href, results) triple all of whose values are textual. *)
Definition textualItem (item : jsval * jsval * list jsval) : bool :=
  let '(header, href, results) := item in
  textual header && textual href && forallb textual results.

(** ** Further sample inputs *)

(** A page with the preview image of the card with hash [k7lVb] and the
    deck row of that hash, whose link names the card. *)
Definition previewImage : node :=
  Element (js "img") [] [js "deckview-image"; js "img-card"]
    [(js "src", js "https://assets.moxfield.net/cards/card-k7lVb-normal.webp?204767761")] [].

Definition deckLink : node :=
  Element (js "a") [] [js "table-deck-row-link"] [(js "href", js "/cards/k7lVb")]
    [TextNode (js "  Dockside Extortionist ")].

Definition deckRow : node :=
  Element (js "tr") [] [] [(js "data-hash", js "k7lVb")]
    [Element (js "td") [] [] [] [deckLink]].

Definition deckPage : document :=
  [Element (js "aside") [] [js "deckview-image-container"; js "is-owner"] [] [previewImage];
   Element (js "table") [] [] [] [deckRow]].

(** A page without a preview image. *)
Definition barePage : document := [Element (js "div") [] [] [] []].

(** Two records as the fetcher builds them. *)
Definition sampleItems : list (jsval * jsval * list jsval) :=
  [(JStr (js "Dockside Extortionist + Temur Sabertooth"), JStr (js "/combos/1529-1887"),
    [JStr (js "Infinite mana")]);
   (JStr (js "Dockside Extortionist + Felidar Guardian"), JStr (js "/combos/1529-4131"),
    [JStr (js "Infinite treasures"); JStr (js "Infinite ETB")])].

(** A world whose cache holds the two records under "Dockside
    Extortionist", written at time 0. *)
Definition sampleName : jsstring := js "Dockside Extortionist".

Definition cachedWorld : World :=
  {| cache := TTLCache.set 0 sampleName (JArr (recordsOf sampleItems)) TTLCache.default;
     requests := [] |}.

(** Networks that answer every request with the sample body, with a body
    that is no JSON, and not at all. *)
Definition net200 : jsstring -> FetchOutcome := fun _ => FetchResponse 200 (Some sampleBody).
Definition netGarbled : jsstring -> FetchOutcome := fun _ => FetchResponse 200 None.
Definition netDown : jsstring -> FetchOutcome := fun _ => FetchRejected.

(** The one record the sample body yields for "Dockside Extortionist". *)
Definition sampleResult : jsval :=
  JArr [comboRecord (JStr (js "Dockside Extortionist + Temur Sabertooth"))
          (JStr (js "/combos/1529-1887")) [JStr (js "Infinite mana")]].
(** * Theorems *)

(** ** Name normalizer *)

Section Normalizer.

Ltac unit_props :=
  unfold slugUnit, alnumUnit, keptUnit, isSpace, isLowerAZ, isDigit, isUpperAZ,
    inRange, hyphen in *;
  rewrite ?orb_true_iff, ?andb_true_iff, ?orb_false_iff, ?andb_false_iff,
    ?N.leb_le, ?N.leb_gt, ?N.eqb_eq, ?N.eqb_neq in *.

Lemma slug_not_upper u :
  slugUnit u = true -> isUpperAZ u = false /\ (u =? 304) = false /\ (u =? 8490) = false.
Proof. intros Hu. unit_props. lia. Qed.

Lemma lowerUnit_slug u : slugUnit u = true -> lowerUnit u = [u].
Proof.
  intros Hu. destruct (slug_not_upper u Hu) as (H1 & H2 & H3).
  unfold lowerUnit. rewrite H1, H2, H3. reflexivity.
Qed.

Lemma keptUnit_slug u : slugUnit u = true -> keptUnit u = negb (u =? hyphen).
Proof.
  intros Hu. destruct (N.eqb_spec u hyphen) as [->|Hne]; [reflexivity|].
  apply N.eqb_neq in Hne. unfold slugUnit in Hu. rewrite Hne, orb_false_r in Hu.
  unfold keptUnit. rewrite Hu. reflexivity.
Qed.

Lemma alnum_not_space u : alnumUnit u = true -> isSpace u = false.
Proof. intros Hu. unit_props. lia. Qed.

Lemma slug_not_hyphen_alnum u :
  slugUnit u = true -> negb (u =? hyphen) = true -> alnumUnit u = true.
Proof.
  intros Hu Hh. apply negb_true_iff in Hh. unfold slugUnit in Hu.
  rewrite Hh, orb_false_r in Hu. exact Hu.
Qed.

Lemma kept_not_space_slug u : keptUnit u = true -> isSpace u = false -> slugUnit u = true.
Proof.
  unfold keptUnit, slugUnit. intros Hk Hs. rewrite Hs in Hk.
  rewrite orb_false_r in Hk. rewrite Hk. reflexivity.
Qed.

Lemma toLowerCase_slug s : Forall (fun u => slugUnit u = true) s -> toLowerCase s = s.
Proof.
  induction 1 as [|u r Hu _ IH]; [reflexivity|].
  unfold toLowerCase in *. simpl. rewrite (lowerUnit_slug u Hu), IH. reflexivity.
Qed.

Lemma stripOthers_kept s : Forall (fun u => keptUnit u = true) (stripOthers s).
Proof.
  unfold stripOthers. apply List.Forall_forall. intros u Hu.
  apply List.filter_In in Hu. tauto.
Qed.

Lemma stripOthers_slug s :
  Forall (fun u => slugUnit u = true) s -> stripOthers s = withoutHyphens s.
Proof.
  induction 1 as [|u r Hu _ IH]; [reflexivity|].
  unfold stripOthers, withoutHyphens in *. simpl.
  rewrite (keptUnit_slug u Hu), IH. reflexivity.
Qed.

Lemma trimStart_Forall (P : N -> Prop) s : Forall P s -> Forall P (trimStart s).
Proof.
  induction 1 as [|u r Hu Hr IH]; simpl; [constructor|].
  destruct (isSpace u); [exact IH | constructor; assumption].
Qed.

Lemma trim_Forall (P : N -> Prop) s : Forall P s -> Forall P (trim s).
Proof.
  intros Hs. unfold trim, trimEnd.
  apply List.Forall_rev, trimStart_Forall, List.Forall_rev, trimStart_Forall, Hs.
Qed.

Lemma hyphenateRuns_slug s :
  Forall (fun u => keptUnit u = true) s ->
  Forall (fun u => slugUnit u = true) (hyphenateRuns s).
Proof.
  induction 1 as [|u r Hu Hr IH]; [constructor|].
  simpl. destruct (isSpace u) eqn:Hsp.
  - destruct r as [|u' r']; [repeat constructor|].
    destruct (isSpace u'); [exact IH | constructor; [reflexivity | exact IH]].
  - constructor; [apply kept_not_space_slug; assumption | exact IH].
Qed.

Lemma formatCardName_slug x : Forall (fun u => slugUnit u = true) (formatCardName x).
Proof. apply hyphenateRuns_slug, trim_Forall, stripOthers_kept. Qed.

Lemma withoutHyphens_alnum s :
  Forall (fun u => slugUnit u = true) s ->
  Forall (fun u => alnumUnit u = true) (withoutHyphens s).
Proof.
  intros Hs. unfold withoutHyphens. apply List.Forall_forall. intros u Hu.
  apply List.filter_In in Hu. destruct Hu as [Hin Hh].
  apply slug_not_hyphen_alnum; [|exact Hh].
  exact (proj1 (List.Forall_forall _ _) Hs u Hin).
Qed.

Lemma trimStart_alnum s : Forall (fun u => alnumUnit u = true) s -> trimStart s = s.
Proof.
  destruct 1 as [|u r Hu _]; [reflexivity|].
  simpl. rewrite (alnum_not_space u Hu). reflexivity.
Qed.

Lemma trim_alnum s : Forall (fun u => alnumUnit u = true) s -> trim s = s.
Proof.
  intros Hs. unfold trim, trimEnd. rewrite (trimStart_alnum s Hs).
  rewrite trimStart_alnum by (apply List.Forall_rev, Hs).
  apply rev_involutive.
Qed.

Lemma hyphenateRuns_alnum s :
  Forall (fun u => alnumUnit u = true) s -> hyphenateRuns s = s.
Proof.
  induction 1 as [|u r Hu _ IH]; [reflexivity|].
  simpl. rewrite (alnum_not_space u Hu), IH. reflexivity.
Qed.

Lemma withoutHyphens_fixed s :
  withoutHyphens s = s <-> ~ In hyphen s.
Proof.
  unfold withoutHyphens. induction s as [|u r IH]; simpl; [tauto|].
  destruct (N.eqb_spec u hyphen) as [->|Hne]; simpl.
  - split; [|tauto]. intros Heq _.
    assert (Hlen : length (List.filter (fun u => negb (u =? hyphen)) r) = S (length r))
      by (rewrite Heq; reflexivity).
    pose proof (List.filter_length_le (fun u => negb (u =? hyphen)) r). lia.
  - split.
    + intros Heq [Hu | Hin]; [congruence|]. injection Heq as Heq. tauto.
    + intros Hn. f_equal. apply IH. tauto.
Qed.

End Normalizer.

(** C2 (as amended): applying the normalizer to a normalized name deletes
    the hyphens of that name and changes nothing else; hence a second
    application returns the same slug exactly when the slug has no
    hyphen. *)
Theorem formatCardName_twice (x : jsstring) :
  formatCardName (formatCardName x) = withoutHyphens (formatCardName x)
  /\ (formatCardName (formatCardName x) = formatCardName x <-> ~ In hyphen (formatCardName x)).
Proof.
  assert (Heq : formatCardName (formatCardName x) = withoutHyphens (formatCardName x)).
  { pose proof (formatCardName_slug x) as Hslug.
    set (s := formatCardName x) in *.
    unfold formatCardName at 1.
    rewrite (toLowerCase_slug s Hslug), (stripOthers_slug s Hslug).
    pose proof (withoutHyphens_alnum s Hslug) as Hal.
    rewrite (trim_alnum _ Hal). apply hyphenateRuns_alnum, Hal. }
  split; [exact Heq|]. rewrite Heq. apply withoutHyphens_fixed.
Qed.

(** C2 (as stated) fails: normalizing "a b" gives "a-b", and normalizing
    that gives "ab". *)
Lemma formatCardName_not_idempotent :
  formatCardName (js "a b") = js "a-b"
  /\ formatCardName (formatCardName (js "a b")) = js "ab"
  /\ formatCardName (formatCardName (js "a b")) <> formatCardName (js "a b").
Proof. vm_compute. repeat split; discriminate. Qed.

(** C7: the normalizer sends "Birgi, God of Storytelling" to
    "birgi-god-of-storytelling" and "  Dockside   Extortionist!! " to
    "dockside-extortionist"; it is a function of its argument alone (it
    takes no page, cache or clock), so equal arguments give equal slugs. *)
Theorem formatCardName_examples :
  formatCardName (js "Birgi, God of Storytelling") = js "birgi-god-of-storytelling"
  /\ formatCardName (js "  Dockside   Extortionist!! ") = js "dockside-extortionist"
  /\ (forall x y : jsstring, x = y -> formatCardName x = formatCardName y).
Proof.
  split; [vm_compute; reflexivity|].
  split; [vm_compute; reflexivity|].
  intros x y ->. reflexivity.
Qed.

(** ** Expiring cache *)

Section CacheFacts.
Context {K : Type} `{Countable K}.
Implicit Types (c : TTLCache.t K) (k : K) (v : jsval).

Lemma get_absent now k c :
  TTLCache.cache c !! k = None -> TTLCache.get now k c = (JNull, c).
Proof. intros Hk. unfold TTLCache.get. rewrite Hk. reflexivity. Qed.

Lemma get_fresh now k c it :
  TTLCache.cache c !! k = Some it ->
  (now - TTLCache.timestamp it <= TTLCache.ttl c)%Z ->
  TTLCache.get now k c = (TTLCache.value it, c).
Proof.
  intros Hk Hage. unfold TTLCache.get. rewrite Hk.
  destruct (Z.ltb_spec (TTLCache.ttl c) (now - TTLCache.timestamp it)); [lia | reflexivity].
Qed.

Lemma get_stale now k c it :
  TTLCache.cache c !! k = Some it ->
  (TTLCache.ttl c < now - TTLCache.timestamp it)%Z ->
  TTLCache.get now k c =
    (JNull, {| TTLCache.ttl := TTLCache.ttl c;
               TTLCache.cache := delete k (TTLCache.cache c) |}).
Proof.
  intros Hk Hage. unfold TTLCache.get. rewrite Hk.
  destruct (Z.ltb_spec (TTLCache.ttl c) (now - TTLCache.timestamp it)); [reflexivity | lia].
Qed.

Lemma lookup_set now k v c :
  TTLCache.cache (TTLCache.set now k v c) !! k
  = Some {| TTLCache.value := v; TTLCache.timestamp := now |}.
Proof. unfold TTLCache.set. simpl. apply lookup_insert_eq. Qed.

Lemma lookup_set_ne now k k' v c :
  k <> k' ->
  TTLCache.cache (TTLCache.set now k v c) !! k' = TTLCache.cache c !! k'.
Proof. intros Hne. unfold TTLCache.set. simpl. apply lookup_insert_ne, Hne. Qed.

Lemma ttl_set now k v c : TTLCache.ttl (TTLCache.set now k v c) = TTLCache.ttl c.
Proof. reflexivity. Qed.

Lemma ttl_get now k c : TTLCache.ttl (snd (TTLCache.get now k c)) = TTLCache.ttl c.
Proof.
  unfold TTLCache.get. destruct (TTLCache.cache c !! k) as [it|]; [|reflexivity].
  destruct (_ <? _)%Z; reflexivity.
Qed.

(** Whatever [get] returns, it returns [null] or the value stored under
    the key, and it leaves that entry in place or deletes it. *)
Lemma get_cases now k c :
  (fst (TTLCache.get now k c) = JNull /\
   (snd (TTLCache.get now k c) = c \/
    snd (TTLCache.get now k c) =
      {| TTLCache.ttl := TTLCache.ttl c;
         TTLCache.cache := delete k (TTLCache.cache c) |}))
  \/ (exists it, TTLCache.cache c !! k = Some it /\
        (now - TTLCache.timestamp it <= TTLCache.ttl c)%Z /\
        TTLCache.get now k c = (TTLCache.value it, c)).
Proof.
  unfold TTLCache.get. destruct (TTLCache.cache c !! k) as [it|] eqn:Hk.
  - destruct (Z.ltb_spec (TTLCache.ttl c) (now - TTLCache.timestamp it)).
    + left. simpl. auto.
    + right. exists it. auto.
  - left. simpl. auto.
Qed.

(** C6: [set(k, v)] followed by [get(k)] no later than the TTL (so also
    at once, the TTL not being negative) returns [v], for every key and
    every value; [get] returns [null], its answer for "absent", on a key
    that has no entry, leaving the cache as it is, and on an entry whose
    age strictly exceeds the TTL, which it deletes.  The TTL of
    [new TTLCache()] is one hour, in milliseconds. *)
Theorem cache_set_get_expiry now later k v c :
  ((later - now <= TTLCache.ttl c)%Z ->
     TTLCache.get later k (TTLCache.set now k v c) = (v, TTLCache.set now k v c))
  /\ (TTLCache.cache c !! k = None -> TTLCache.get later k c = (JNull, c))
  /\ (forall it, TTLCache.cache c !! k = Some it ->
        (TTLCache.ttl c < later - TTLCache.timestamp it)%Z ->
        fst (TTLCache.get later k c) = JNull
        /\ TTLCache.cache (snd (TTLCache.get later k c)) = delete k (TTLCache.cache c)
        /\ TTLCache.cache (snd (TTLCache.get later k c)) !! k = None)
  /\ TTLCache.ttl (@TTLCache.default K _ _) = 3600000%Z.
Proof.
  split; [|split; [|split; [|reflexivity]]].
  - intros Hage.
    exact (get_fresh later k _ _ (lookup_set now k v c) Hage).
  - apply get_absent.
  - intros it Hk Hage. rewrite (get_stale later k c it Hk Hage). simpl.
    split; [reflexivity|]. split; [reflexivity|]. apply lookup_delete_eq.
Qed.

(** C9: a stored [null] cannot be told from an absent key.  After
    [set(k, null)] the map holds an entry with a time stamp under [k],
    yet [get(k)], at whatever time, returns [null], which is also what
    [get(k)] returns on a cache with no entry for [k]. *)
Theorem cache_null_like_absent now later later' k c c' :
  TTLCache.cache c' !! k = None ->
  TTLCache.cache (TTLCache.set now k JNull c) !! k
    = Some {| TTLCache.value := JNull; TTLCache.timestamp := now |}
  /\ fst (TTLCache.get later k (TTLCache.set now k JNull c)) = JNull
  /\ fst (TTLCache.get later' k c') = JNull.
Proof.
  intros Hk. split; [apply lookup_set|]. split.
  - destruct (get_cases later k (TTLCache.set now k JNull c)) as [[Hn _]|(it & Hit & _ & Hg)];
      [exact Hn|].
    rewrite lookup_set in Hit. injection Hit as <-. rewrite Hg. reflexivity.
  - rewrite (get_absent later' k c' Hk). reflexivity.
Qed.

End CacheFacts.

(** The default TTL is one hour, in milliseconds. *)
Lemma default_ttl : TTLCache.ttl (@TTLCache.default jsstring _ _) = 3600000%Z.
Proof. reflexivity. Qed.

(** ** Combo fetcher *)


Section FetcherFacts.
Implicit Types (w : World) (name : jsstring) (net : jsstring -> FetchOutcome).

Lemma fetch_hit net tGet tSet name w :
  truthy (fst (TTLCache.get tGet name (cache w))) = true ->
  fetchComboData net tGet tSet name w
  = (fst (TTLCache.get tGet name (cache w)),
     {| cache := cache w; requests := requests w |}).
Proof.
  intros Ht. unfold fetchComboData.
  destruct (get_cases tGet name (cache w)) as [[Hn _]|(it & _ & _ & Hg)].
  - rewrite Hn in Ht. discriminate.
  - rewrite Hg in *. simpl in *. rewrite Ht. reflexivity.
Qed.

(** On a miss the request is issued, and the answer decides the rest. *)
Lemma fetch_miss net tGet tSet name w :
  truthy (fst (TTLCache.get tGet name (cache w))) = false ->
  let c1 := snd (TTLCache.get tGet name (cache w)) in
  let url := comboUrl (formatCardName name) in
  let issued := requests w ++ [url] in
  let miss := (JNull, {| cache := c1; requests := issued |}) in
  fetchComboData net tGet tSet name w =
  match net url with
  | FetchRejected => miss
  | FetchResponse status body =>
      if negb (ok status) then
        if (status =? 403)%Z
        then (JNull, {| cache := TTLCache.set tSet name JNull c1; requests := issued |})
        else miss
      else
        match body with
        | None => miss
        | Some data =>
            match combosOfBody name (formatCardName name) data with
            | Throw => miss
            | Normal result =>
                (result, {| cache := TTLCache.set tSet name result c1;
                            requests := issued |})
            end
        end
  end.
Proof.
  intros Ht. unfold fetchComboData.
  destruct (TTLCache.get tGet name (cache w)) as [cachedData c1]. simpl in *.
  rewrite Ht. reflexivity.
Qed.

Lemma fetch_miss_requests net tGet tSet name w :
  truthy (fst (TTLCache.get tGet name (cache w))) = false ->
  requests (snd (fetchComboData net tGet tSet name w))
  = requests w ++ [comboUrl (formatCardName name)].
Proof.
  intros Ht. rewrite (fetch_miss net tGet tSet name w Ht).
  destruct (net _) as [|status body]; [reflexivity|].
  destruct (negb (ok status)); [destruct (status =? 403)%Z; reflexivity|].
  destruct body as [data|]; [|reflexivity].
  destruct (combosOfBody _ _ _); reflexivity.
Qed.

(** A lookup that misses keeps missing on the cache it leaves behind. *)
Lemma miss_stays_miss (tGet later : Z) name (c : TTLCache.t jsstring) :
  truthy (fst (TTLCache.get tGet name c)) = false ->
  truthy (fst (TTLCache.get later name (snd (TTLCache.get tGet name c)))) = false.
Proof.
  unfold TTLCache.get. destruct (TTLCache.cache c !! name) as [it|] eqn:Hk.
  - destruct (TTLCache.ttl c <? tGet - TTLCache.timestamp it)%Z; simpl.
    + intros _. rewrite lookup_delete_eq. reflexivity.
    + intros Ht. rewrite Hk. destruct (_ <? _)%Z; simpl; [reflexivity | exact Ht].
  - intros _. simpl. rewrite Hk. reflexivity.
Qed.

(** The fetcher returns a cached value that is truthy and not older than
    the TTL, without a request and without touching the cache. *)
Lemma fetch_cached_truthy net tGet tSet name w it :
  TTLCache.cache (cache w) !! name = Some it ->
  (tGet - TTLCache.timestamp it <= TTLCache.ttl (cache w))%Z ->
  truthy (TTLCache.value it) = true ->
  fetchComboData net tGet tSet name w
  = (TTLCache.value it, {| cache := cache w; requests := requests w |}).
Proof.
  intros Hit Hage Ht.
  pose proof (get_fresh tGet name (cache w) it Hit Hage) as Hg.
  rewrite fetch_hit; rewrite Hg; simpl; [reflexivity | exact Ht].
Qed.

(** A cached [null], however young, is not honoured: the request is
    issued again. *)
Lemma fetch_cached_null_refetches net tGet tSet name w it :
  TTLCache.cache (cache w) !! name = Some it ->
  TTLCache.value it = JNull ->
  requests (snd (fetchComboData net tGet tSet name w))
  = requests w ++ [comboUrl (formatCardName name)].
Proof.
  intros Hit Hv. apply fetch_miss_requests.
  destruct (get_cases tGet name (cache w)) as [[Hn _]|(it' & Hit' & _ & Hg)].
  - rewrite Hn. reflexivity.
  - rewrite Hg. simpl. rewrite Hit in Hit'. injection Hit' as <-. rewrite Hv. reflexivity.
Qed.

End FetcherFacts.

(** C1 (the code departs from it): after an HTTP 403 for the card "x" the
    cache holds a [null] entry for "x", and a second call one millisecond
    later, well inside the TTL of one hour, does not return that entry
    from the cache: it issues the request again, so two calls make two
    requests. *)
Theorem fetch_twice_after_403 :
  let x := js "x" in
  let url := js "https://json.edhrec.com/pages/combos/x.json" in
  let '(r1, w1) := fetchComboData net403 0 1 x initialWorld in
  let '(r2, w2) := fetchComboData net403 2 3 x w1 in
  r1 = JNull
  /\ TTLCache.cache (cache w1) !! x
     = Some {| TTLCache.value := JNull; TTLCache.timestamp := 1 |}
  /\ (2 - 1 <= TTLCache.ttl (cache w1))%Z
  /\ requests w1 = [url]
  /\ r2 = JNull
  /\ requests w2 = [url; url].
Proof. vm_compute. repeat split. discriminate. Qed.

Section FetcherInvariant.

Lemma projectCombo_record g r : projectCombo g = Normal r -> isComboRecord r.
Proof.
  unfold projectCombo, bind.
  destruct (getProp g s_header) as [h|]; [|discriminate].
  destruct (getProp g s_href) as [hr|]; [|discriminate].
  destruct (getProp g s_combo) as [c|]; [|discriminate].
  intros [= <-]. eexists _, _, _. reflexivity.
Qed.

Lemma mapOf_project_records kept records :
  mapOf projectCombo kept = Normal records -> Forall isComboRecord records.
Proof.
  revert records. induction kept as [|g kept IH]; simpl; intros records.
  - intros [= <-]. constructor.
  - unfold bind at 1. destruct (projectCombo g) as [r|] eqn:Hr; [|discriminate].
    unfold bind. destruct (mapOf projectCombo kept) as [rs|]; [|discriminate].
    intros [= <-]. constructor; [exact (projectCombo_record g r Hr) | apply IH; reflexivity].
Qed.

Lemma resultOf_valid records : Forall isComboRecord records -> validEntry (resultOf records).
Proof.
  intros Hr. destruct records as [|r rs]; [left; reflexivity|].
  right. exists (r :: rs). split; [reflexivity|]. split; [discriminate | exact Hr].
Qed.

(** Whatever the body, a result that is computed is [null] or a
    non-empty array of records: an empty list was turned into [null]. *)
Lemma combosOfBody_valid name slug data result :
  combosOfBody name slug data = Normal result -> validEntry result.
Proof.
  unfold combosOfBody, bind.
  destruct (combosOf data) as [combos|]; [|discriminate].
  destruct (asArray combos) as [groups|]; [|discriminate].
  destruct (filterOf _ groups) as [kept|]; [|discriminate].
  destruct (mapOf projectCombo kept) as [records|] eqn:Hm; [|discriminate].
  intros [= <-]. apply resultOf_valid, (mapOf_project_records kept), Hm.
Qed.

Lemma get_keeps_invariant now name c :
  cacheInvariant c -> cacheInvariant (snd (TTLCache.get now name c)).
Proof.
  intros Hc. destruct (get_cases now name c) as [[_ [-> | ->]]|(it & _ & _ & ->)];
    [exact Hc | | exact Hc].
  unfold cacheInvariant in *. simpl. apply map_Forall_delete, Hc.
Qed.

Lemma set_keeps_invariant now name v c :
  validEntry v -> cacheInvariant c -> cacheInvariant (TTLCache.set now name v c).
Proof.
  intros Hv Hc. unfold cacheInvariant in *. simpl.
  apply map_Forall_insert_2; [exact Hv | exact Hc].
Qed.

Lemma fetch_preserves net tGet tSet name w :
  cacheInvariant (cache w) ->
  cacheInvariant (cache (snd (fetchComboData net tGet tSet name w))).
Proof.
  intros Hw.
  destruct (truthy (fst (TTLCache.get tGet name (cache w)))) eqn:Ht.
  - rewrite (fetch_hit net tGet tSet name w Ht). exact Hw.
  - rewrite (fetch_miss net tGet tSet name w Ht).
    pose proof (get_keeps_invariant tGet name (cache w) Hw) as Hc1.
    assert (Hnull : cacheInvariant
              (TTLCache.set tSet name JNull (snd (TTLCache.get tGet name (cache w)))))
      by (apply set_keeps_invariant; [left; reflexivity | exact Hc1]).
    destruct (net _) as [|status body]; [exact Hc1|].
    destruct (negb (ok status)); [destruct (status =? 403)%Z; assumption|].
    destruct body as [data|]; [|exact Hc1].
    destruct (combosOfBody _ _ data) as [result|] eqn:Hres; [|exact Hc1].
    simpl. apply set_keeps_invariant; [|exact Hc1].
    exact (combosOfBody_valid _ _ _ _ Hres).
Qed.

Lemma initial_invariant : cacheInvariant (cache initialWorld).
Proof. unfold cacheInvariant. simpl. apply map_Forall_empty. Qed.

(** No call changes the TTL: the script's cache keeps its hour. *)
Lemma fetch_keeps_ttl net tGet tSet name w :
  TTLCache.ttl (cache (snd (fetchComboData net tGet tSet name w))) = TTLCache.ttl (cache w).
Proof.
  destruct (truthy (fst (TTLCache.get tGet name (cache w)))) eqn:Ht.
  - rewrite (fetch_hit net tGet tSet name w Ht). reflexivity.
  - rewrite (fetch_miss net tGet tSet name w Ht).
    pose proof (ttl_get tGet name (cache w)) as Hc1.
    destruct (net _) as [|status body]; [exact Hc1|].
    destruct (negb (ok status)); [destruct (status =? 403)%Z; exact Hc1|].
    destruct body as [data|]; [|exact Hc1].
    destruct (combosOfBody _ _ data); exact Hc1.
Qed.

Lemma ttl_reachable calls :
  TTLCache.ttl (cache (runCalls calls initialWorld)) = 3600000%Z.
Proof.
  assert (Hgen : forall w, TTLCache.ttl (cache (runCalls calls w)) = TTLCache.ttl (cache w)).
  { induction calls as [|[[[net tGet] tSet] name] calls IH]; intros w; [reflexivity|].
    simpl. rewrite IH. apply fetch_keeps_ttl. }
  rewrite Hgen. reflexivity.
Qed.

(** On the script's cache, after any calls, a value just set is read
    back, [null] included. *)
Lemma script_cache_set_get calls now k v :
  let c := cache (runCalls calls initialWorld) in
  TTLCache.get now k (TTLCache.set now k v c) = (v, TTLCache.set now k v c).
Proof.
  intros c. apply (get_fresh now k _ _ (lookup_set now k v c)).
  simpl. fold c. unfold c. rewrite ttl_reachable. lia.
Qed.

(** The invariant holds after any sequence of calls from the start. *)
Lemma invariant_reachable calls : cacheInvariant (cache (runCalls calls initialWorld)).
Proof.
  assert (Hgen : forall w, cacheInvariant (cache w) ->
                           cacheInvariant (cache (runCalls calls w))).
  { induction calls as [|[[[net tGet] tSet] name] calls IH]; intros w Hw; [exact Hw|].
    simpl. apply IH, fetch_preserves, Hw. }
  apply Hgen, initial_invariant.
Qed.

End FetcherInvariant.

(** C3: the cache the script starts with holds the invariant, and every
    call of [fetchComboData], whatever the network answers, keeps it:
    each entry holds [null] or a non-empty array of Combo Records, never
    an empty array.  A computed result is [null] when the filtered list is
    empty, and that is what [cache.set] receives. *)
Theorem fetch_keeps_cache_invariant net tGet tSet name w :
  cacheInvariant (cache w) ->
  cacheInvariant (cache (snd (fetchComboData net tGet tSet name w)))
  /\ (forall k it,
        TTLCache.cache (cache (snd (fetchComboData net tGet tSet name w))) !! k = Some it ->
        TTLCache.value it <> JArr [])
  /\ cacheInvariant (cache initialWorld)
  /\ resultOf [] = JNull.
Proof.
  intros Hw. pose proof (fetch_preserves net tGet tSet name w Hw) as Hinv.
  split; [exact Hinv|]. split; [|split; [apply initial_invariant | reflexivity]].
  intros k it Hk Hv. specialize (Hinv k it Hk). simpl in Hinv. rewrite Hv in Hinv.
  destruct Hinv as [Hn | (records & [= <-] & Hne & _)]; [discriminate | congruence].
Qed.

(** A lookup purges only what no later lookup would have returned. *)
Lemma lookup_unobservable (tGet later : Z) (name k : jsstring) (c : TTLCache.t jsstring) :
  (tGet <= later)%Z ->
  fst (TTLCache.get later k (snd (TTLCache.get tGet name c))) = fst (TTLCache.get later k c).
Proof.
  intros Hlater. unfold TTLCache.get at 2.
  destruct (TTLCache.cache c !! name) as [it|] eqn:Hname; [|reflexivity].
  destruct (Z.ltb_spec (TTLCache.ttl c) (tGet - TTLCache.timestamp it)) as [Hstale|];
    [|reflexivity].
  simpl. unfold TTLCache.get. simpl.
  destruct (decide (name = k)) as [<-|Hne].
  - rewrite lookup_delete_eq, Hname.
    destruct (Z.ltb_spec (TTLCache.ttl c) (later - TTLCache.timestamp it)); [reflexivity | lia].
  - rewrite lookup_delete_ne by exact Hne.
    destruct (TTLCache.cache c !! k) as [it'|]; [|reflexivity].
    destruct (_ <? _)%Z; reflexivity.
Qed.

(** C4 (as amended): when the lookup missed and the request is answered
    with a status outside 200..299, the fetcher returns [null], and it
    writes the cache exactly when the status is 403: the map then holds,
    under the raw name, an entry whose value is [null] and whose time
    stamp is the time of the write, put into the cache the lookup left.
    On any other status nothing is written: the cache is the one the
    lookup left, which answers every later lookup as the cache before the
    call would, and a later call with the same name issues the request
    again.  The cache the lookup left is the cache before the call, or,
    where that held an expired entry under the name, the cache before the
    call without that entry; so entries of other names and the TTL are in
    every case as before the call. *)
Theorem fetch_non_success net tGet tSet name w status body :
  truthy (fst (TTLCache.get tGet name (cache w))) = false ->
  net (comboUrl (formatCardName name)) = FetchResponse status body ->
  ok status = false ->
  let c1 := snd (TTLCache.get tGet name (cache w)) in
  let w' := snd (fetchComboData net tGet tSet name w) in
  fst (fetchComboData net tGet tSet name w) = JNull
  /\ (status = 403%Z ->
        TTLCache.cache (cache w') !! name
        = Some {| TTLCache.value := JNull; TTLCache.timestamp := tSet |}
        /\ cache w' = TTLCache.set tSet name JNull c1)
  /\ (status <> 403%Z ->
        cache w' = c1
        /\ TTLCache.cache (cache w') !! name = TTLCache.cache c1 !! name
        /\ (forall k later, (tGet <= later)%Z ->
              fst (TTLCache.get later k (cache w')) = fst (TTLCache.get later k (cache w)))
        /\ forall net' tGet' tSet',
             requests (snd (fetchComboData net' tGet' tSet' name w'))
             = requests w' ++ [comboUrl (formatCardName name)])
  /\ (forall k, k <> name ->
        TTLCache.cache (cache w') !! k = TTLCache.cache (cache w) !! k)
  /\ TTLCache.ttl (cache w') = TTLCache.ttl (cache w)
  /\ (c1 = cache w
      \/ exists it, TTLCache.cache (cache w) !! name = Some it
                    /\ (TTLCache.ttl (cache w) < tGet - TTLCache.timestamp it)%Z
                    /\ c1 = {| TTLCache.ttl := TTLCache.ttl (cache w);
                               TTLCache.cache := delete name (TTLCache.cache (cache w)) |}
                    /\ TTLCache.cache c1 !! name = None).
Proof.
  intros Ht Hnet Hok c1 w'.
  assert (Hc1 : forall k, k <> name ->
                  TTLCache.cache c1 !! k = TTLCache.cache (cache w) !! k).
  { intros k Hk. subst c1.
    destruct (get_cases tGet name (cache w)) as [[_ [-> | ->]]|(it & _ & _ & ->)];
      [reflexivity | | reflexivity].
    simpl. apply lookup_delete_ne. congruence. }
  assert (Hpurge : c1 = cache w
      \/ exists it, TTLCache.cache (cache w) !! name = Some it
                    /\ (TTLCache.ttl (cache w) < tGet - TTLCache.timestamp it)%Z
                    /\ c1 = {| TTLCache.ttl := TTLCache.ttl (cache w);
                               TTLCache.cache := delete name (TTLCache.cache (cache w)) |}
                    /\ TTLCache.cache c1 !! name = None).
  { subst c1. unfold TTLCache.get.
    destruct (TTLCache.cache (cache w) !! name) as [it|] eqn:Hk; [|left; reflexivity].
    destruct (Z.ltb_spec (TTLCache.ttl (cache w)) (tGet - TTLCache.timestamp it));
      [|left; reflexivity].
    right. exists it. simpl. rewrite lookup_delete_eq. auto. }
  assert (Httl : TTLCache.ttl c1 = TTLCache.ttl (cache w)) by (subst c1; apply ttl_get).
  subst w'. rewrite (fetch_miss net tGet tSet name w Ht). fold c1.
  rewrite Hnet, Hok. simpl negb. cbv iota.
  destruct (Z.eqb_spec status 403) as [->|Hne]; simpl.
  - split; [reflexivity|]. split; [intros _; split; [apply lookup_insert_eq | reflexivity]|].
    split; [congruence|]. split; [|split; [exact Httl | exact Hpurge]].
    intros k Hk. rewrite lookup_insert_ne by congruence. apply Hc1, Hk.
  - split; [reflexivity|]. split; [congruence|].
    split; [|split; [exact Hc1 | split; [exact Httl | exact Hpurge]]].
    intros _. split; [reflexivity|]. split; [reflexivity|]. split.
    + intros k later Hlater. subst c1. apply lookup_unobservable, Hlater.
    + intros net' tGet' tSet'. apply (fetch_miss_requests net' tGet' tSet' name).
      simpl. subst c1. apply miss_stays_miss, Ht.
Qed.

(** C4 as the specification words it fails where it says that a status
    other than 403 leaves the cache unchanged: the card "x" has an entry
    written at time 0, the call comes one millisecond after the hour, and
    the request is answered with HTTP 500.  The lookup misses, [null] is
    returned, and the entry that was in the map is gone from it. *)
Lemma fetch_500_purges_expired_entry :
  let x := js "x" in
  let w' := snd (fetchComboData net500 3600001 3600002 x worldWithEntry) in
  truthy (fst (TTLCache.get 3600001 x (cache worldWithEntry))) = false
  /\ net500 (comboUrl (formatCardName x)) = FetchResponse 500 None
  /\ ok 500 = false
  /\ fst (fetchComboData net500 3600001 3600002 x worldWithEntry) = JNull
  /\ TTLCache.cache (cache worldWithEntry) !! x
     = Some {| TTLCache.value := JArr [sampleRecord]; TTLCache.timestamp := 0 |}
  /\ TTLCache.cache (cache w') !! x = None
  /\ cache w' <> cache worldWithEntry.
Proof.
  intros x w'.
  assert (Hnone : TTLCache.cache (cache w') !! x = None) by (vm_compute; reflexivity).
  assert (Hsome : TTLCache.cache (cache worldWithEntry) !! x
                  = Some {| TTLCache.value := JArr [sampleRecord];
                            TTLCache.timestamp := 0 |}) by (vm_compute; reflexivity).
  repeat split; try reflexivity; try assumption.
  intros Heq. rewrite Heq, Hsome in Hnone. discriminate.
Qed.

Section FilterFacts.
Variables cardName formattedName : jsstring.

Lemma filterOf_pointwise (cb : jsval -> completion bool) (f : jsval -> bool) groups :
  Forall (fun g => cb g = Normal (f g)) groups ->
  filterOf cb groups = Normal (List.filter f groups).
Proof.
  induction 1 as [|g groups Hg _ IH]; [reflexivity|].
  simpl. rewrite Hg, IH. simpl. destruct (f g); reflexivity.
Qed.

Lemma mapOf_pointwise {A} (cb : jsval -> completion A) (f : jsval -> A) elems :
  Forall (fun e => cb e = Normal (f e)) elems ->
  mapOf cb elems = Normal (map f elems).
Proof.
  induction 1 as [|e elems He _ IH]; [reflexivity|].
  simpl. rewrite He, IH. reflexivity.
Qed.

Lemma getProp_not_nullish v name :
  isNullish v = false -> exists x, getProp v name = Normal x.
Proof. destruct v; simpl; try discriminate; eauto. Qed.

Lemma someOf_cardviews views :
  forallb (fun cardview => negb (isNullish cardview)) views = true ->
  someOf (matchesCardview formattedName) views
  = Normal (existsb (fun cardview =>
                       match getProp cardview s_sanitized with
                       | Normal v => strictEqualsStr v formattedName
                       | Throw => false
                       end) views).
Proof.
  induction views as [|cv views IH]; [reflexivity|].
  simpl. intros Hall. apply andb_true_iff in Hall. destruct Hall as [Hcv Hall].
  apply negb_true_iff in Hcv.
  destruct (getProp_not_nullish cv s_sanitized Hcv) as [x Hx].
  unfold matchesCardview at 1. rewrite Hx. simpl.
  destruct (strictEqualsStr x formattedName); [reflexivity | exact (IH Hall)].
Qed.

Lemma headerIsString_object g :
  headerIsString g = true ->
  exists props h, g = JObj props /\ ownProperty props s_header = JStr h.
Proof.
  unfold headerIsString. destruct g as [| | | | |elems|props]; simpl; try discriminate.
  destruct (ownProperty props s_header) as [| | | |h| |] eqn:Hh; try discriminate.
  intros _. eauto.
Qed.

(** On a group with a string header and a usable [cardviews], the filter
    callback completes, and with the truth value of (a) or (b). *)
Lemma keepCombo_qualifies g :
  headerIsString g = true -> cardviewsUsable g = true ->
  keepCombo cardName formattedName g = Normal (qualifies cardName formattedName g).
Proof.
  intros Hh Hcv. destruct (headerIsString_object g Hh) as (props & h & -> & Hhdr).
  unfold keepCombo, qualifies, hasMatchingCardview, headerContains, cardviewsUsable in *.
  simpl in *. rewrite Hhdr.
  destruct (truthy (ownProperty props s_cardviews)) eqn:Ht.
  - destruct (ownProperty props s_cardviews) as [| | | | |views|]; try discriminate.
    simpl. rewrite (someOf_cardviews views Hcv). simpl.
    destruct (existsb _ views); reflexivity.
  - simpl. destruct (ownProperty props s_cardviews); try discriminate; reflexivity.
Qed.

Lemma projectCombo_object props :
  projectCombo (JObj props) = Normal (recordOf (JObj props)).
Proof. reflexivity. Qed.

End FilterFacts.

(** C5 (as amended): take a body whose combo groups all have a string
    header and a [cardviews] that is falsy or an array without [null]
    entries.  Then the filter keeps a group exactly when (a) its
    [cardviews] has an entry whose [sanitized] is the slug of the queried
    name or (b) its header contains the raw name; every kept group is
    projected to the record of its header, href and results; and on a
    cache miss answered with a 2xx status and this body, [fetchComboData]
    returns and caches these records ([null] when there is none). *)
Theorem filter_keeps_qualifying name data groups :
  combosOf data = Normal (JArr groups) ->
  Forall (fun g => headerIsString g = true /\ cardviewsUsable g = true) groups ->
  let slug := formatCardName name in
  let kept := List.filter (qualifies name slug) groups in
  filterOf (keepCombo name slug) groups = Normal kept
  /\ (forall g, In g kept <->
        In g groups /\ (hasMatchingCardview slug g = true \/ headerContains name g = true))
  /\ mapOf projectCombo kept = Normal (map recordOf kept)
  /\ combosOfBody name slug data = Normal (resultOf (map recordOf kept))
  /\ forall net tGet tSet w status,
       truthy (fst (TTLCache.get tGet name (cache w))) = false ->
       net (comboUrl slug) = FetchResponse status (Some data) ->
       ok status = true ->
       fetchComboData net tGet tSet name w
       = (resultOf (map recordOf kept),
          {| cache := TTLCache.set tSet name (resultOf (map recordOf kept))
                        (snd (TTLCache.get tGet name (cache w)));
             requests := requests w ++ [comboUrl slug] |}).
Proof.
  intros Hdata Hshape slug kept.
  assert (Hfilter : filterOf (keepCombo name slug) groups = Normal kept).
  { apply filterOf_pointwise. eapply List.Forall_impl; [|exact Hshape].
    intros g [Hh Hcv]. apply keepCombo_qualifies; assumption. }
  assert (Hmap : mapOf projectCombo kept = Normal (map recordOf kept)).
  { apply mapOf_pointwise. apply List.Forall_forall. intros g Hg.
    apply List.filter_In in Hg. destruct Hg as [Hg _].
    destruct (proj1 (List.Forall_forall _ _) Hshape g Hg) as [Hh _].
    destruct (headerIsString_object g Hh) as (props & h & -> & _).
    apply projectCombo_object. }
  assert (Hbody : combosOfBody name slug data = Normal (resultOf (map recordOf kept))).
  { unfold combosOfBody. rewrite Hdata. simpl. rewrite Hfilter. simpl.
    rewrite Hmap. reflexivity. }
  split; [exact Hfilter|]. split; [|split; [exact Hmap | split; [exact Hbody|]]].
  - intros g. subst kept. rewrite List.filter_In. unfold qualifies.
    rewrite orb_true_iff. reflexivity.
  - intros net tGet tSet w status Ht Hnet Hok.
    rewrite (fetch_miss net tGet tSet name w Ht). fold slug.
    rewrite Hnet, Hok. simpl. rewrite Hbody. reflexivity.
Qed.

(** C5 (as stated) fails: a group whose header is the string "x" and whose
    [cardviews] is [[null]] meets (b) for the card "x", yet the filter
    callback throws on it, so the group is not kept and the fetcher
    returns [null] without writing the cache.  The callback throws as well
    when [cardviews] is an object, which has no [some]. *)
Lemma filter_throws_on_null_cardview :
  let name := js "x" in
  let group := JObj [(s_header, JStr (js "x")); (s_cardviews, JArr [JNull])] in
  let group' := JObj [(s_header, JStr (js "x")); (s_cardviews, JObj [])] in
  let data :=
    JObj [(s_container, JObj [(s_json_dict, JObj [(s_cardlists, JArr [group])])])] in
  combosOf data = Normal (JArr [group])
  /\ headerIsString group = true
  /\ headerContains name group = true
  /\ keepCombo name (formatCardName name) group = Throw
  /\ combosOfBody name (formatCardName name) data = Throw
  /\ fetchComboData (fun _ => FetchResponse 200 (Some data)) 0 1 name initialWorld
     = (JNull, {| cache := TTLCache.default;
                  requests := [js "https://json.edhrec.com/pages/combos/x.json"] |})
  /\ headerIsString group' = true
  /\ headerContains name group' = true
  /\ keepCombo name (formatCardName name) group' = Throw.
Proof. vm_compute. repeat split. Qed.

(** ** The page *)

Section ForestInduction.
Variable Q : list node -> Prop.
Hypothesis Qnil : Q [].
Hypothesis Qtext : forall d r, Q r -> Q (TextNode d :: r).
Hypothesis Qelem : forall tag i classes attrs children r,
  Q children -> Q r -> Q (Element tag i classes attrs children :: r).

(** The children of any node have the property... *)
Lemma children_ok (n : node) :
  match n with
  | TextNode _ => True
  | Element _ _ _ _ children => Q children
  end.
Proof.
  revert n. fix IHn 1. intros [d|tag i classes attrs children]; [exact I|].
  revert children. fix IHch 1. intros [|c r]; [exact Qnil|].
  pose proof (IHn c) as Hc. pose proof (IHch r) as Hr.
  destruct c as [d|tag' i' classes' attrs' ch]; [exact (Qtext d r Hr)|].
  exact (Qelem tag' i' classes' attrs' ch r Hc Hr).
Qed.

(** ... hence induction on a list of sibling nodes: the children of the
    first node and its later siblings are both smaller. *)
Lemma forest_ind (l : list node) : Q l.
Proof.
  induction l as [|c r IH]; [exact Qnil|].
  destruct c as [d|tag i classes attrs ch]; [exact (Qtext d r IH)|].
  exact (Qelem tag i classes attrs ch r
           (children_ok (Element tag i classes attrs ch)) IH).
Qed.
End ForestInduction.

Section PageFacts.
Variable p : node -> bool.

Lemma findNode_element tag i classes attrs children :
  findNode p (Element tag i classes attrs children)
  = if p (Element tag i classes attrs children)
    then Some (Element tag i classes attrs children)
    else findFirst p children.
Proof.
  simpl. destruct (p _); [reflexivity|].
  induction children as [|c r IH]; [reflexivity|].
  simpl. destruct (findNode p c); [reflexivity | exact IH].
Qed.

Lemma findNode_text d :
  findNode p (TextNode d) = if p (TextNode d) then Some (TextNode d) else None.
Proof. reflexivity. Qed.

Lemma rewriteIn_element f tag i classes attrs children :
  rewriteIn p f (Element tag i classes attrs children)
  = option_map (Element tag i classes attrs) (rewriteFirst p f children).
Proof.
  simpl. f_equal.
  induction children as [|c r IH]; [reflexivity|].
  simpl. destruct (p c); [reflexivity|].
  destruct (rewriteIn p f c); [reflexivity|]. rewrite IH. reflexivity.
Qed.

Lemma rewriteIn_text f d : rewriteIn p f (TextNode d) = None.
Proof. reflexivity. Qed.

Lemma countIn_element q tag i classes attrs children :
  countIn q (Element tag i classes attrs children)
  = ((if q (Element tag i classes attrs children) then 1 else 0) + count q children)%nat.
Proof.
  simpl. f_equal.
  induction children as [|c r IH]; [reflexivity|].
  simpl. rewrite IH. reflexivity.
Qed.

Lemma countIn_text q d :
  countIn q (TextNode d) = ((if q (TextNode d) then 1 else 0) + 0)%nat.
Proof. reflexivity. Qed.

Lemma countIn_accepts q n : q n = true -> (1 <= countIn q n)%nat.
Proof.
  intros Hq. destruct n as [d|tag i classes attrs ch].
  - rewrite countIn_text, Hq. lia.
  - rewrite countIn_element, Hq. lia.
Qed.

(** No node is accepted exactly when the count is zero. *)
Lemma findFirst_none_count l : findFirst p l = None <-> count p l = 0%nat.
Proof.
  induction l as [| d r IH | tag i classes attrs ch r IHch IH] using forest_ind;
    [simpl; tauto | |].
  - cbn [findFirst]. rewrite findNode_text. cbn [count]. rewrite countIn_text.
    destruct (p (TextNode d)); [split; [discriminate | lia]|].
    rewrite IH. simpl. tauto.
  - cbn [findFirst]. rewrite findNode_element. cbn [count]. rewrite countIn_element.
    destruct (p (Element tag i classes attrs ch)); [split; [discriminate | lia]|].
    destruct (findFirst p ch) eqn:Hch.
    + split; [discriminate|]. intros Hc.
      assert (Hz : count p ch = 0%nat) by lia.
      apply IHch in Hz. discriminate.
    + rewrite IH. pose proof (proj1 IHch eq_refl). lia.
Qed.

(** A rewrite finds its node exactly when a search does. *)
Lemma rewriteFirst_none f l : rewriteFirst p f l = None <-> findFirst p l = None.
Proof.
  induction l as [| d r IH | tag i classes attrs ch r IHch IH] using forest_ind;
    [simpl; tauto | |].
  - cbn [findFirst]. rewrite findNode_text. cbn [rewriteFirst]. rewrite ?rewriteIn_text.
    destruct (p (TextNode d)); [split; discriminate|].
    rewrite <- IH. destruct (rewriteFirst p f r); simpl; split; congruence.
  - cbn [findFirst]. rewrite findNode_element.
    cbn [rewriteFirst]. rewrite rewriteIn_element.
    destruct (p (Element tag i classes attrs ch)); [split; discriminate|].
    destruct (rewriteFirst p f ch) eqn:Hch; simpl.
    + destruct (findFirst p ch) eqn:Hf; [split; discriminate|].
      destruct IHch as [_ Hback]. discriminate (Hback eq_refl).
    + rewrite (proj1 IHch eq_refl). rewrite <- IH.
      destruct (rewriteFirst p f r); simpl; split; congruence.
Qed.

(** Removing the first accepted node takes accepted nodes away and adds
    no node of any kind. *)
Lemma remove_count l l' :
  shallow p ->
  rewriteFirst p (fun _ => []) l = Some l' ->
  (count p l' < count p l)%nat
  /\ forall q, shallow q -> (count q l' <= count q l)%nat.
Proof.
  intros Hp. revert l'.
  induction l as [| d r IH | tag i classes attrs ch r IHch IH] using forest_ind;
    intros l'; [discriminate | |].
  - cbn [rewriteFirst]. rewrite ?rewriteIn_text. destruct (p (TextNode d)) eqn:Hpd.
    + intros [= <-]. cbn [app count].
      pose proof (countIn_accepts p _ Hpd). split; [lia|]. intros q _. lia.
    + destruct (rewriteFirst p _ r) as [r'|]; [|discriminate].
      cbn [option_map]. intros [= <-]. destruct (IH r' eq_refl) as [Hlt Hle].
      cbn [count]. split; [lia|]. intros q Hq. specialize (Hle q Hq). cbn [count]. lia.
  - cbn [rewriteFirst]. rewrite rewriteIn_element.
    destruct (p (Element tag i classes attrs ch)) eqn:Hpc.
    + intros [= <-]. cbn [app count].
      pose proof (countIn_accepts p _ Hpc). split; [lia|]. intros q _. lia.
    + destruct (rewriteFirst p _ ch) as [ch'|]; cbn [option_map].
      * intros [= <-]. destruct (IHch ch' eq_refl) as [Hlt Hle].
        cbn [count]. rewrite !countIn_element.
        rewrite (Hp tag i classes attrs ch' ch).
        split; [lia|]. intros q Hq. specialize (Hle q Hq).
        rewrite !countIn_element, (Hq tag i classes attrs ch' ch). lia.
      * destruct (rewriteFirst p _ r) as [r'|]; [|discriminate].
        cbn [option_map]. intros [= <-]. destruct (IH r' eq_refl) as [Hlt Hle].
        cbn [count]. split; [lia|]. intros q Hq. specialize (Hle q Hq). cbn [count]. lia.
Qed.

(** Appending a child to the first accepted node: that node, with the
    child as its last child, is the first accepted node afterwards, and
    the nodes of the child are what the page gains. *)
Lemma append_first child l tag i classes attrs children :
  shallow p ->
  findFirst p l = Some (Element tag i classes attrs children) ->
  exists l',
    rewriteFirst p (withChild child) l = Some l'
    /\ findFirst p l' = Some (Element tag i classes attrs (children ++ [child]))
    /\ forall q, shallow q -> count q l' = (count q l + countIn q child)%nat.
Proof.
  intros Hp.
  induction l as [| d r IH | tag0 i0 classes0 attrs0 ch r IHch IH] using forest_ind;
    [discriminate | |].
  - cbn [findFirst]. rewrite findNode_text. cbn [rewriteFirst]. rewrite ?rewriteIn_text.
    destruct (p (TextNode d)) eqn:Hpd; [discriminate|].
    intros Hr. destruct (IH Hr) as (r' & Hrw & Hf & Hc). rewrite Hrw. cbn [option_map].
    exists (TextNode d :: r'). split; [reflexivity|]. split.
    + cbn [findFirst]. rewrite findNode_text, Hpd. exact Hf.
    + intros q Hq. cbn [count]. rewrite (Hc q Hq). lia.
  - cbn [findFirst]. rewrite findNode_element.
    cbn [rewriteFirst]. rewrite rewriteIn_element.
    destruct (p (Element tag0 i0 classes0 attrs0 ch)) eqn:Hpc.
    + intros [= -> -> -> -> ->]. cbn [withChild app].
      exists (Element tag i classes attrs (children ++ [child]) :: r).
      split; [reflexivity|]. split.
      * cbn [findFirst]. rewrite findNode_element.
        rewrite (Hp tag i classes attrs _ children), Hpc. reflexivity.
      * intros q Hq. cbn [count]. rewrite !countIn_element.
        rewrite (Hq tag i classes attrs _ children).
        assert (Happ : forall a b, count q (a ++ b) = (count q a + count q b)%nat).
        { intros a b. induction a as [|x a IHa]; [reflexivity|].
          simpl. rewrite IHa. lia. }
        rewrite Happ. simpl. lia.
    + destruct (findFirst p ch) as [x|] eqn:Hch.
      * intros [= ->]. destruct (IHch eq_refl) as (ch' & Hrw & Hf & Hc).
        rewrite Hrw. cbn [option_map].
        exists (Element tag0 i0 classes0 attrs0 ch' :: r).
        split; [reflexivity|]. split.
        -- cbn [findFirst]. rewrite findNode_element.
           rewrite (Hp tag0 i0 classes0 attrs0 ch' ch), Hpc, Hf. reflexivity.
        -- intros q Hq. cbn [count]. rewrite !countIn_element.
           rewrite (Hq tag0 i0 classes0 attrs0 ch' ch), (Hc q Hq). lia.
      * intros Hr. destruct (IH Hr) as (r' & Hrw & Hf & Hc).
        rewrite (proj2 (rewriteFirst_none (withChild child) ch) Hch). cbn [option_map].
        rewrite Hrw. cbn [option_map].
        exists (Element tag0 i0 classes0 attrs0 ch :: r').
        split; [reflexivity|]. split.
        -- cbn [findFirst]. rewrite findNode_element, Hpc, Hch. exact Hf.
        -- intros q Hq. cbn [count]. rewrite (Hc q Hq). lia.
Qed.

End PageFacts.

(** ** Result renderer *)

Section RendererFacts.

Lemma hasId_shallow i : shallow (hasId i).
Proof. intros tag i' classes attrs ch ch'. reflexivity. Qed.

Lemma isAnchor_shallow : shallow isAnchor.
Proof. intros tag i classes attrs ch ch'. reflexivity. Qed.

Lemma anyNode_shallow : shallow anyNode.
Proof. intros tag i classes attrs ch ch'. reflexivity. Qed.

(** The page after the first step of the renderer. *)
Lemma existing_removed doc :
  match getElementById panelId doc with
  | Some _ => removeById panelId doc
  | None => doc
  end = removeById panelId doc.
Proof.
  unfold getElementById, removeById.
  destruct (findFirst (hasId panelId) doc) eqn:Hf; [reflexivity|].
  rewrite (proj2 (rewriteFirst_none (hasId panelId) (fun _ => []) doc) Hf). reflexivity.
Qed.

(** With [null] the renderer removes the element the id locates and
    returns. *)
Lemma render_null name doc :
  displayComboResults name JNull doc = Returned (removeById panelId doc).
Proof. unfold displayComboResults. rewrite existing_removed. reflexivity. Qed.

Lemma removeById_count doc :
  (count (hasId panelId) (removeById panelId doc) <= count (hasId panelId) doc - 1)%nat
  /\ (count anyNode (removeById panelId doc) <= count anyNode doc)%nat.
Proof.
  unfold removeById.
  destruct (rewriteFirst (hasId panelId) (fun _ => []) doc) as [doc'|] eqn:Hrw.
  - destruct (remove_count (hasId panelId) doc doc' (hasId_shallow panelId) Hrw)
      as [Hlt Hle].
    specialize (Hle anyNode anyNode_shallow). lia.
  - apply rewriteFirst_none, findFirst_none_count in Hrw. lia.
Qed.

Lemma render_empty name doc tag i classes attrs children :
  findFirst isAnchor (removeById panelId doc) = Some (Element tag i classes attrs children) ->
  displayComboResults name (JArr []) doc
  = Returned (appendChildTo isAnchor (emptyPanel name) (removeById panelId doc)).
Proof.
  intros Ha. unfold displayComboResults. rewrite existing_removed, Ha. reflexivity.
Qed.

Lemma findFirst_accepts (p : node -> bool) l a : findFirst p l = Some a -> p a = true.
Proof.
  induction l as [| d r IH | tag i classes attrs ch r IHch IH] using forest_ind;
    [discriminate | |]; cbn [findFirst].
  - rewrite findNode_text. destruct (p (TextNode d)) eqn:Hp; [|exact IH].
    intros [= <-]. exact Hp.
  - rewrite findNode_element.
    destruct (p (Element tag i classes attrs ch)) eqn:Hp; [intros [= <-]; exact Hp|].
    destruct (findFirst p ch); [exact IHch | exact IH].
Qed.

Lemma textContentOf_no_id v : count (hasId panelId) (textContentOf v) = 0%nat.
Proof.
  unfold textContentOf.
  destruct v; try reflexivity; destruct (toString _); reflexivity.
Qed.

(** An assignment to [textContent] that completes leaves the children
    [textContentOf] describes. *)
Lemma setTextContent_normal v nodes :
  setTextContent v = Normal nodes -> nodes = textContentOf v.
Proof.
  unfold setTextContent, ToString, bind.
  destruct v; try (intros [= <-]; reflexivity);
    destruct (printable _); try discriminate; intros [= <-]; reflexivity.
Qed.

Lemma resultItem_normal result item :
  resultItem result = Normal item ->
  item = Element (js "li") [] [] [(s_style, resultItemStyle)] (textContentOf result).
Proof.
  unfold resultItem, bind.
  destruct (setTextContent result) as [text|] eqn:Htext; [|discriminate].
  intros [= <-]. rewrite (setTextContent_normal _ _ Htext). reflexivity.
Qed.

Lemma resultItems_no_id elems items :
  mapOf resultItem elems = Normal items -> count (hasId panelId) items = 0%nat.
Proof.
  revert items. induction elems as [|e elems IH]; simpl; intros items.
  - intros [= <-]. reflexivity.
  - unfold bind at 1. destruct (resultItem e) as [item|] eqn:Hitem; [|discriminate].
    unfold bind. destruct (mapOf resultItem elems) as [rest|]; [|discriminate].
    intros [= <-]. cbn [count]. rewrite (resultItem_normal _ _ Hitem).
    rewrite countIn_element, textContentOf_no_id.
    rewrite (IH rest eq_refl). reflexivity.
Qed.

Lemma comboContainer_no_id combo entry :
  comboContainer combo = Normal entry -> countIn (hasId panelId) entry = 0%nat.
Proof.
  unfold comboContainer, bind.
  destruct (getProp combo s_href) as [href|]; [|discriminate].
  destruct (ToString href) as [path|]; [|discriminate].
  destruct (getProp combo s_header) as [header|]; [|discriminate].
  destruct (setTextContent header) as [headerNodes|] eqn:Hheader; [|discriminate].
  destruct (getProp combo s_results) as [results|]; [|discriminate].
  destruct (asArray results) as [elems|]; [|discriminate].
  destruct (mapOf resultItem elems) as [items|] eqn:Hitems; [|discriminate].
  intros [= <-]. rewrite countIn_element. cbn [count].
  rewrite (setTextContent_normal _ _ Hheader).
  rewrite !countIn_element, textContentOf_no_id, (resultItems_no_id elems items Hitems).
  reflexivity.
Qed.

Lemma entries_no_id combos entries :
  mapOf comboContainer combos = Normal entries -> count (hasId panelId) entries = 0%nat.
Proof.
  revert entries. induction combos as [|c combos IH]; simpl; intros entries.
  - intros [= <-]. reflexivity.
  - unfold bind at 1. destruct (comboContainer c) as [e|] eqn:He; [|discriminate].
    unfold bind. destruct (mapOf comboContainer combos) as [rest|]; [|discriminate].
    intros [= <-]. cbn [count].
    rewrite (comboContainer_no_id c e He), (IH rest eq_refl). reflexivity.
Qed.

(** The renderer never leaves a second element with the panel's id on a
    page that had at most one. *)
Lemma render_at_most_one_panel name comboData doc :
  (count (hasId panelId) doc <= 1)%nat ->
  (count (hasId panelId) (pageAfter (displayComboResults name comboData doc)) <= 1)%nat.
Proof.
  intros Hone. destruct (removeById_count doc) as [Hid _].
  unfold displayComboResults. rewrite existing_removed.
  destruct (negb (truthy comboData)); [simpl; lia|].
  destruct (findFirst isAnchor (removeById panelId doc)) as [a|] eqn:Ha; [|simpl; lia].
  unfold bind.
  destruct (getProp comboData s_length) as [len|]; [|simpl; lia].
  destruct (ToString len) as [shown|]; [|simpl; lia].
  destruct (asArray comboData) as [combos|]; [|simpl; lia].
  destruct (mapOf comboContainer combos) as [entries|] eqn:He; [|simpl; lia].
  cbn [pageAfter].
  pose proof (findFirst_accepts isAnchor _ _ Ha) as Hp.
  destruct a as [d|tag i classes attrs ch]; [discriminate|].
  destruct (append_first isAnchor (comboDisplay (headerText name len) entries)
              _ _ _ _ _ _ isAnchor_shallow Ha) as (page & Hrw & _ & Hcount).
  unfold appendChildTo. rewrite Hrw, (Hcount (hasId panelId) (hasId_shallow panelId)).
  unfold comboDisplay. rewrite countIn_element. cbn [count].
  rewrite !countIn_element, (entries_no_id combos entries He).
  simpl. lia.
Qed.

End RendererFacts.

(** C8 (as amended): on a page where at most one element carries the
    panel's id, the renderer called with [null] removes that element, if
    there is one, and returns: afterwards no element carries the id, the
    page has gained no node, and a page without a panel is left as it
    was. *)
Theorem render_null_clears_panel name doc :
  (count (hasId panelId) doc <= 1)%nat ->
  displayComboResults name JNull doc = Returned (removeById panelId doc)
  /\ getElementById panelId (removeById panelId doc) = None
  /\ count (hasId panelId) (removeById panelId doc) = 0%nat
  /\ (count anyNode (removeById panelId doc) <= count anyNode doc)%nat
  /\ (getElementById panelId doc = None -> removeById panelId doc = doc).
Proof.
  intros Hone. destruct (removeById_count doc) as [Hid Hany].
  assert (Hzero : count (hasId panelId) (removeById panelId doc) = 0%nat) by lia.
  split; [apply render_null|]. split; [|split; [exact Hzero | split; [exact Hany|]]].
  - unfold getElementById. apply findFirst_none_count, Hzero.
  - unfold getElementById, removeById. intros Hnone.
    rewrite (proj2 (rewriteFirst_none (hasId panelId) (fun _ => []) doc) Hnone). reflexivity.
Qed.

(** C8 (as stated) fails: on a page with two elements of the panel's id
    the renderer, called with [null], removes the first; the second is
    still there afterwards. *)
Lemma render_null_leaves_second_panel :
  displayComboResults (js "x") JNull twoPanels
  = Returned [Element (js "div") panelId [] [] []]
  /\ getElementById panelId (pageAfter (displayComboResults (js "x") JNull twoPanels))
     = Some (Element (js "div") panelId [] [] []).
Proof. vm_compute. split; reflexivity. Qed.

(** C10: an empty array is not the [null] case.  The renderer removes the
    element the id locates and, the anchor being on the page then, appends
    to the anchor a new panel whose header line shows the count 0 and
    whose grid has no entry; with [null] it would have stopped after the
    removal. *)
Theorem render_empty_array_injects_panel name doc tag i classes attrs children :
  findFirst isAnchor (removeById panelId doc) = Some (Element tag i classes attrs children) ->
  let page := appendChildTo isAnchor (emptyPanel name) (removeById panelId doc) in
  displayComboResults name (JArr []) doc = Returned page
  /\ findFirst isAnchor page
     = Some (Element tag i classes attrs (children ++ [emptyPanel name]))
  /\ count (hasId panelId) page = S (count (hasId panelId) (removeById panelId doc))
  /\ displayComboResults name JNull doc = Returned (removeById panelId doc)
  /\ comboDisplay (headerText name (JNum (Z.of_nat (length (@nil jsval))))) []
     = emptyPanel name.
Proof.
  intros Ha page.
  destruct (append_first isAnchor (emptyPanel name) _ _ _ _ _ _ isAnchor_shallow Ha)
    as (page' & Hrw & Hfind & Hcount).
  assert (Hpage : page = page') by (subst page; unfold appendChildTo; rewrite Hrw; reflexivity).
  split; [exact (render_empty name doc _ _ _ _ _ Ha)|].
  split; [rewrite Hpage; exact Hfind|].
  split; [|split; [apply render_null | reflexivity]].
  rewrite Hpage, (Hcount (hasId panelId) (hasId_shallow panelId)).
  assert (Hpanel : countIn (hasId panelId) (emptyPanel name) = 1%nat) by reflexivity.
  rewrite Hpanel. lia.
Qed.

(** ** The theorems at concrete inputs *)

Lemma cache_set_get_expiry_witness :
  let x := js "x" in
  let c0 : TTLCache.t jsstring := TTLCache.default in
  let c1 := TTLCache.set 0 x JNull c0 in
  ((5 - 0 <= TTLCache.ttl c0)%Z
   /\ TTLCache.cache c0 !! x = None
   /\ TTLCache.cache c1 !! x = Some {| TTLCache.value := JNull; TTLCache.timestamp := 0 |}
   /\ (TTLCache.ttl c1 < 3600001 - 0)%Z)
  /\ TTLCache.get 5 x c1 = (JNull, c1)
  /\ TTLCache.get 5 x c0 = (JNull, c0)
  /\ TTLCache.cache (snd (TTLCache.get 3600001 x c1)) !! x = None.
Proof.
  intros x c0 c1.
  assert (H1 : (5 - 0 <= TTLCache.ttl c0)%Z) by (vm_compute; discriminate).
  assert (H2 : TTLCache.cache c0 !! x = None) by reflexivity.
  assert (H3 : TTLCache.cache c1 !! x
               = Some {| TTLCache.value := JNull; TTLCache.timestamp := 0 |})
    by reflexivity.
  assert (H4 : (TTLCache.ttl c1 < 3600001 - 0)%Z) by reflexivity.
  split; [auto|].
  destruct (cache_set_get_expiry 0 5 x JNull c0) as (Hset & Habsent & _ & _).
  destruct (cache_set_get_expiry 0 3600001 x JNull c1) as (_ & _ & Hstale & _).
  split; [exact (Hset H1)|]. split; [exact (Habsent H2)|].
  exact (proj2 (proj2 (Hstale _ H3 H4))).
Defined.

Lemma cache_null_like_absent_witness :
  let x := js "x" in
  let c0 : TTLCache.t jsstring := TTLCache.default in
  TTLCache.cache c0 !! x = None
  /\ fst (TTLCache.get 5 x (TTLCache.set 0 x JNull c0)) = JNull
  /\ fst (TTLCache.get 5 x c0) = JNull.
Proof.
  intros x c0.
  assert (H0 : TTLCache.cache c0 !! x = None) by reflexivity.
  split; [exact H0|].
  exact (proj2 (cache_null_like_absent 0 5 5 x c0 c0 H0)).
Defined.

Lemma formatCardName_examples_witness :
  js "Lotus" = js "Lotus" /\ formatCardName (js "Lotus") = formatCardName (js "Lotus").
Proof.
  split; [reflexivity|].
  exact (proj2 (proj2 formatCardName_examples) (js "Lotus") (js "Lotus") eq_refl).
Defined.

Lemma fetch_keeps_cache_invariant_witness :
  cacheInvariant (cache initialWorld)
  /\ cacheInvariant (cache (snd (fetchComboData net403 0 1 (js "x") initialWorld))).
Proof.
  assert (H0 : cacheInvariant (cache initialWorld)).
  { unfold cacheInvariant. simpl. apply map_Forall_empty. }
  split; [exact H0|].
  exact (proj1 (fetch_keeps_cache_invariant net403 0 1 (js "x") initialWorld H0)).
Defined.

Lemma fetch_non_success_witness :
  let x := js "x" in
  (truthy (fst (TTLCache.get 0 x (cache initialWorld))) = false
   /\ net403 (comboUrl (formatCardName x)) = FetchResponse 403 None
   /\ ok 403 = false)
  /\ (truthy (fst (TTLCache.get 3600001 x (cache worldWithEntry))) = false
      /\ net500 (comboUrl (formatCardName x)) = FetchResponse 500 None
      /\ ok 500 = false)
  /\ fst (fetchComboData net403 0 1 x initialWorld) = JNull
  /\ TTLCache.cache (cache (snd (fetchComboData net403 0 1 x initialWorld))) !! x
     = Some {| TTLCache.value := JNull; TTLCache.timestamp := 1 |}
  /\ fst (fetchComboData net500 3600001 3600002 x worldWithEntry) = JNull
  /\ cache (snd (fetchComboData net500 3600001 3600002 x worldWithEntry))
     = snd (TTLCache.get 3600001 x (cache worldWithEntry)).
Proof.
  intros x.
  assert (H1 : truthy (fst (TTLCache.get 0 x (cache initialWorld))) = false) by reflexivity.
  assert (H2 : net403 (comboUrl (formatCardName x)) = FetchResponse 403 None) by reflexivity.
  assert (H3 : ok 403 = false) by reflexivity.
  assert (H4 : truthy (fst (TTLCache.get 3600001 x (cache worldWithEntry))) = false)
    by (vm_compute; reflexivity).
  assert (H5 : net500 (comboUrl (formatCardName x)) = FetchResponse 500 None) by reflexivity.
  assert (H6 : ok 500 = false) by reflexivity.
  split; [auto|]. split; [auto|].
  destruct (fetch_non_success net403 0 1 x initialWorld 403 None H1 H2 H3)
    as (Hnull & Hwrite & _).
  destruct (fetch_non_success net500 3600001 3600002 x worldWithEntry 500 None H4 H5 H6)
    as (Hnull' & _ & Hother & _).
  split; [exact Hnull|]. split; [exact (proj1 (Hwrite eq_refl))|].
  split; [exact Hnull'|].
  refine (proj1 (Hother _)). discriminate.
Defined.

Lemma filter_keeps_qualifying_witness :
  let name := js "Dockside Extortionist" in
  let net200 : jsstring -> FetchOutcome := fun _ => FetchResponse 200 (Some sampleBody) in
  (combosOf sampleBody = Normal (JArr sampleGroups)
   /\ Forall (fun g => headerIsString g = true /\ cardviewsUsable g = true) sampleGroups)
  /\ fst (fetchComboData net200 0 1 name initialWorld)
     = JArr [JObj [(s_header, JStr (js "Dockside Extortionist + Temur Sabertooth"));
                   (s_href, JStr (js "/combos/1529-1887"));
                   (s_results, JArr [JStr (js "Infinite mana")])]].
Proof.
  intros name net200.
  assert (H1 : combosOf sampleBody = Normal (JArr sampleGroups)) by reflexivity.
  assert (H2 : Forall (fun g => headerIsString g = true /\ cardviewsUsable g = true)
                 sampleGroups)
    by (repeat constructor).
  split; [auto|].
  destruct (filter_keeps_qualifying name sampleBody sampleGroups H1 H2)
    as (_ & _ & _ & _ & Hfetch).
  rewrite (Hfetch net200 0%Z 1%Z initialWorld 200%Z eq_refl eq_refl eq_refl).
  vm_compute. reflexivity.
Defined.

Lemma render_null_clears_panel_witness :
  (count (hasId panelId) pageWithPanel <= 1)%nat
  /\ displayComboResults (js "x") JNull pageWithPanel
     = Returned [Element (js "aside") [] [js "deckview-image-container"; js "is-owner"] [] []]
  /\ getElementById panelId (removeById panelId pageWithPanel) = None.
Proof.
  assert (H1 : (count (hasId panelId) pageWithPanel <= 1)%nat) by (vm_compute; lia).
  split; [exact H1|].
  destruct (render_null_clears_panel (js "x") pageWithPanel H1) as (Hrun & Hgone & _).
  split; [rewrite Hrun; vm_compute; reflexivity | exact Hgone].
Defined.

Lemma render_empty_array_injects_panel_witness :
  let anchorClasses := [js "deckview-image-container"; js "is-owner"] in
  findFirst isAnchor (removeById panelId pageWithPanel)
    = Some (Element (js "aside") [] anchorClasses [] [])
  /\ displayComboResults (js "x") (JArr []) pageWithPanel
     = Returned [Element (js "aside") [] anchorClasses [] [emptyPanel (js "x")]].
Proof.
  intros anchorClasses.
  assert (H1 : findFirst isAnchor (removeById panelId pageWithPanel)
               = Some (Element (js "aside") [] anchorClasses [] []))
    by reflexivity.
  split; [exact H1|].
  rewrite (proj1 (render_empty_array_injects_panel (js "x") pageWithPanel _ _ _ _ _ H1)).
  vm_compute. reflexivity.
Defined.

(** * Further properties of the script *)

(** ** Strings and the normalizer *)

Section StringFacts.

Lemma last_rev_head (s : jsstring) : last (rev s) = head s.
Proof. destruct s as [|u r]; [reflexivity|]. simpl. apply last_snoc. Qed.

Lemma trimStart_head s u : head (trimStart s) = Some u -> isSpace u = false.
Proof.
  induction s as [|v r IH]; simpl; [discriminate|].
  destruct (isSpace v) eqn:Hv; [exact IH|]. simpl. intros [= <-]. exact Hv.
Qed.

Lemma trimStart_snoc a u : isSpace u = false -> trimStart (a ++ [u]) = trimStart a ++ [u].
Proof.
  intros Hu. induction a as [|b a IH]; simpl; [rewrite Hu; reflexivity|].
  destruct (isSpace b); [exact IH | reflexivity].
Qed.

Lemma trimEnd_cons u r : isSpace u = false -> trimEnd (u :: r) = u :: trimEnd r.
Proof.
  intros Hu. unfold trimEnd. simpl. rewrite (trimStart_snoc _ u Hu), rev_app_distr.
  reflexivity.
Qed.

Lemma trim_trimmed s : trimmedString (trim s).
Proof.
  unfold trim. split.
  - destruct (trimStart s) as [|v r] eqn:Hs; [discriminate|].
    assert (Hv : isSpace v = false) by (apply (trimStart_head s); rewrite Hs; reflexivity).
    rewrite (trimEnd_cons v r Hv). simpl. intros u [= <-]. exact Hv.
  - unfold trimEnd. intros u. rewrite last_rev_head. apply trimStart_head.
Qed.

Lemma trimStart_nil_iff s : trimStart s = [] <-> Forall (fun u => isSpace u = true) s.
Proof.
  induction s as [|v r IH]; simpl; [split; [constructor | reflexivity]|].
  destruct (isSpace v) eqn:Hv.
  - rewrite IH. split; [intros Hr; constructor; assumption | intros Hr; inversion Hr; assumption].
  - split; [discriminate|]. intros Hr. inversion Hr; congruence.
Qed.

Lemma trim_nil_iff s : trim s = [] <-> Forall (fun u => isSpace u = true) s.
Proof.
  rewrite <- trimStart_nil_iff. unfold trim. split.
  - destruct (trimStart s) as [|v r] eqn:Hs; [reflexivity|].
    assert (Hv : isSpace v = false) by (apply (trimStart_head s); rewrite Hs; reflexivity).
    rewrite (trimEnd_cons v r Hv). discriminate.
  - intros ->. reflexivity.
Qed.

Lemma hyphenateRuns_nil_iff s : hyphenateRuns s = [] <-> s = [].
Proof.
  split; [|intros ->; reflexivity].
  induction s as [|u r IH]; [reflexivity|]. simpl.
  destruct (isSpace u); [|discriminate].
  destruct r as [|v r']; [discriminate|].
  destruct (isSpace v); [|discriminate]. intros Hr. discriminate (IH Hr).
Qed.

Lemma alnum_not_hyphen u : alnumUnit u = true -> (u =? hyphen) = false.
Proof.
  unfold alnumUnit, isLowerAZ, isDigit, inRange, hyphen.
  rewrite orb_true_iff, !andb_true_iff, !N.leb_le, N.eqb_neq. lia.
Qed.

Lemma alnum_no_space u : alnumUnit u = true -> isSpace u = false.
Proof.
  unfold alnumUnit, isSpace, isLowerAZ, isDigit, inRange.
  rewrite ?orb_true_iff, ?andb_true_iff, ?orb_false_iff, ?andb_false_iff,
    ?N.leb_le, ?N.leb_gt, ?N.eqb_neq. lia.
Qed.

Lemma kept_cases u : keptUnit u = true -> isSpace u = false -> alnumUnit u = true.
Proof.
  unfold keptUnit, alnumUnit. intros Hk Hs. rewrite Hs, orb_false_r in Hk. exact Hk.
Qed.

Lemma startsWith_hyphens u r :
  u <> hyphen -> startsWith (u :: r) [hyphen; hyphen] = false.
Proof.
  intros Hu. cbn [startsWith].
  destruct (N.eqb_spec hyphen u); [congruence | reflexivity].
Qed.

Lemma includes_cons u s p : includes (u :: s) p = startsWith (u :: s) p || includes s p.
Proof. reflexivity. Qed.

(** What a string of words looks like from outside. *)
Lemma slugWords_outside s :
  slugWords s = true ->
  head s <> Some hyphen /\ last s <> Some hyphen /\ includes s [hyphen; hyphen] = false.
Proof.
  remember (length s) as n eqn:Hn. revert s Hn.
  induction n as [n IH] using lt_wf_ind. intros s Hn.
  destruct s as [|u r]; [discriminate|]. cbn [slugWords].
  intros Hw. apply andb_true_iff in Hw. destruct Hw as [Hu Hr].
  pose proof (alnum_not_hyphen u Hu) as Hne. apply N.eqb_neq in Hne.
  destruct r as [|v r'].
  - split; [intros [= ?]; congruence|]. split; [intros [= ?]; congruence|].
    rewrite includes_cons, (startsWith_hyphens u [] Hne). reflexivity.
  - rewrite includes_cons, (startsWith_hyphens u _ Hne). cbn [orb].
    destruct (N.eqb_spec v hyphen) as [->|Hv].
    + destruct (IH (length r') ltac:(simpl in Hn; lia) r' eq_refl Hr) as (Hh & Hl & Hi).
      destruct r' as [|x r'']; [discriminate|].
      split; [intros [= ?]; congruence|]. split; [exact Hl|].
      assert (Hx : x <> hyphen) by (intros ->; apply Hh; reflexivity).
      rewrite includes_cons, Hi, orb_false_r. cbn [startsWith].
      rewrite N.eqb_refl. cbn [andb].
      destruct (N.eqb_spec hyphen x); [congruence | reflexivity].
    + destruct (IH (length (v :: r')) ltac:(simpl in Hn |- *; lia) (v :: r') eq_refl Hr)
        as (Hh & Hl & Hi).
      split; [intros [= ?]; congruence|]. split; [exact Hl|]. exact Hi.
Qed.

Lemma hyphenateRuns_cons2 u v r :
  hyphenateRuns (u :: v :: r)
  = if isSpace u
    then if isSpace v then hyphenateRuns (v :: r) else hyphen :: hyphenateRuns (v :: r)
    else u :: hyphenateRuns (v :: r).
Proof. reflexivity. Qed.

(** White-space runs between words become the single hyphens of a string
    of words. *)
Lemma hyphenateRuns_words s :
  Forall (fun u => keptUnit u = true) s ->
  (forall u, last s = Some u -> isSpace u = false) ->
  match s with
  | [] => True
  | u :: _ =>
      if isSpace u
      then exists rest, hyphenateRuns s = hyphen :: rest /\ slugWords rest = true
      else slugWords (hyphenateRuns s) = true
  end.
Proof.
  induction 1 as [|u r Hu Hr IH]; [exact (fun _ => I)|].
  intros Hlast. destruct r as [|v r'].
  - assert (Hs : isSpace u = false) by (apply Hlast; reflexivity).
    rewrite Hs. simpl. rewrite Hs. simpl. rewrite (kept_cases u Hu Hs). reflexivity.
  - assert (Hlast' : forall z, last (v :: r') = Some z -> isSpace z = false)
      by (intros z Hz; apply Hlast; exact Hz).
    specialize (IH Hlast').
    rewrite hyphenateRuns_cons2. destruct (isSpace u) eqn:Hsu.
    + destruct (isSpace v) eqn:Hsv; [exact IH|].
      eexists. split; [reflexivity | exact IH].
    + pose proof (kept_cases u Hu Hsu) as Hau.
      destruct (isSpace v) eqn:Hsv.
      * destruct IH as (rest & -> & Hrest). cbn [slugWords].
        rewrite Hau, N.eqb_refl. exact Hrest.
      * assert (Hav : alnumUnit v = true)
          by (apply kept_cases; [inversion Hr; assumption | exact Hsv]).
        assert (Hhd : exists rest, hyphenateRuns (v :: r') = v :: rest).
        { destruct r' as [|z r'']; simpl; rewrite Hsv; eauto. }
        destruct Hhd as (rest & Hrest). rewrite Hrest in IH |- *.
        cbn [slugWords] in IH |- *. rewrite Hau, (alnum_not_hyphen v Hav). exact IH.
Qed.

Lemma formatCardName_words x : formatCardName x = [] \/ slugWords (formatCardName x) = true.
Proof.
  unfold formatCardName. set (t := trim (stripOthers (toLowerCase x))).
  assert (Hkept : Forall (fun u => keptUnit u = true) t)
    by (apply trim_Forall, stripOthers_kept).
  destruct (trim_trimmed (stripOthers (toLowerCase x))) as [Hhead Hlast]. fold t in Hhead, Hlast.
  pose proof (hyphenateRuns_words t Hkept Hlast) as Hw.
  destruct t as [|u r]; [left; reflexivity|].
  rewrite (Hhead u eq_refl) in Hw. right. exact Hw.
Qed.

End StringFacts.

(** X1: a slug consists of lower-case ASCII letters, digits and hyphens;
    it is empty or a string of words, so it neither starts nor ends with a
    hyphen and never has two hyphens in a row. *)
Theorem formatCardName_slug_shape (x : jsstring) :
  Forall (fun u => slugUnit u = true) (formatCardName x)
  /\ (formatCardName x = [] \/ slugWords (formatCardName x) = true)
  /\ head (formatCardName x) <> Some hyphen
  /\ last (formatCardName x) <> Some hyphen
  /\ includes (formatCardName x) [hyphen; hyphen] = false.
Proof.
  split; [apply formatCardName_slug|].
  pose proof (formatCardName_words x) as Hw. split; [exact Hw|].
  destruct Hw as [-> | Hw]; [repeat split; discriminate|].
  exact (slugWords_outside _ Hw).
Qed.

(** X2: the slug is empty exactly when the lower-cased name has no
    letter [a-z] and no digit; white space and other characters alone
    give the empty slug. *)
Theorem formatCardName_empty_iff (x : jsstring) :
  formatCardName x = [] <-> Forall (fun u => alnumUnit u = false) (toLowerCase x).
Proof.
  unfold formatCardName. rewrite hyphenateRuns_nil_iff, trim_nil_iff.
  unfold stripOthers. rewrite !List.Forall_forall. split.
  - intros Hall u Hu. destruct (alnumUnit u) eqn:Ha; [|reflexivity].
    assert (Hk : keptUnit u = true) by (unfold keptUnit; unfold alnumUnit in Ha; rewrite Ha; reflexivity).
    specialize (Hall u (proj2 (List.filter_In _ _ _) (conj Hu Hk))).
    rewrite (alnum_no_space u Ha) in Hall. discriminate.
  - intros Hall u Hu. apply List.filter_In in Hu. destruct Hu as [Hu Hk].
    specialize (Hall u Hu). unfold keptUnit in Hk. unfold alnumUnit in Hall.
    rewrite Hall in Hk. exact Hk.
Qed.

(** ** Expiring cache *)

Section CacheMore.
Context {K : Type} `{Countable K}.
Implicit Types (c : TTLCache.t K) (k : K) (v : jsval).

(** X3: [set] overwrites.  A second [set] on a key leaves the cache as if
    the first had not happened: the old value and its time stamp are gone,
    the TTL counts from the second [set], and a lookup within it returns
    the new value. *)
Theorem cache_set_overwrites t1 t2 later k v1 v2 c :
  TTLCache.set t2 k v2 (TTLCache.set t1 k v1 c) = TTLCache.set t2 k v2 c
  /\ ((later - t2 <= TTLCache.ttl c)%Z ->
      fst (TTLCache.get later k (TTLCache.set t2 k v2 (TTLCache.set t1 k v1 c))) = v2).
Proof.
  assert (Heq : TTLCache.set t2 k v2 (TTLCache.set t1 k v1 c) = TTLCache.set t2 k v2 c).
  { unfold TTLCache.set. simpl. rewrite insert_insert_eq. reflexivity. }
  split; [exact Heq|]. intros Hage. rewrite Heq.
  rewrite (get_fresh later k _ _ (lookup_set t2 k v2 c) Hage). reflexivity.
Qed.

(** X4: keys do not interfere.  What a lookup of [k'] returns is changed
    neither by a [set] on another key nor by a lookup of another key
    (which can purge that other key only). *)
Theorem cache_keys_independent now later t k k' v c :
  k <> k' ->
  TTLCache.get later k' (TTLCache.set now k v c)
  = (fst (TTLCache.get later k' c),
     TTLCache.set now k v (snd (TTLCache.get later k' c)))
  /\ fst (TTLCache.get later k' (snd (TTLCache.get t k c))) = fst (TTLCache.get later k' c).
Proof.
  intros Hne. split.
  - unfold TTLCache.get. rewrite lookup_set_ne by exact Hne.
    destruct (TTLCache.cache c !! k') as [it|]; [|reflexivity].
    change (TTLCache.ttl (TTLCache.set now k v c)) with (TTLCache.ttl c).
    destruct (_ <? _)%Z; [|reflexivity].
    unfold TTLCache.set. simpl. rewrite delete_insert_ne by congruence. reflexivity.
  - destruct (get_cases t k c) as [[_ [-> | ->]]|(it & _ & _ & ->)];
      [reflexivity | | reflexivity].
    unfold TTLCache.get. simpl. rewrite lookup_delete_ne by exact Hne.
    destruct (TTLCache.cache c !! k') as [it|]; [|reflexivity].
    destruct (_ <? _)%Z; reflexivity.
Qed.

(** X5: a lookup never adds or alters an entry (every entry of the cache
    it leaves was there before, unchanged), it keeps the TTL, and asking
    again at the same clock reading gives the same answer and changes
    nothing more. *)
Theorem cache_get_settles now k c :
  (forall k' it, TTLCache.cache (snd (TTLCache.get now k c)) !! k' = Some it ->
                 TTLCache.cache c !! k' = Some it)
  /\ TTLCache.ttl (snd (TTLCache.get now k c)) = TTLCache.ttl c
  /\ TTLCache.get now k (snd (TTLCache.get now k c))
     = (fst (TTLCache.get now k c), snd (TTLCache.get now k c)).
Proof.
  split; [|split; [apply ttl_get|]].
  - intros k' it. destruct (get_cases now k c) as [[_ [-> | ->]]|(it' & _ & _ & ->)];
      [tauto | | tauto].
    simpl. intros Hk. apply lookup_delete_Some in Hk. tauto.
  - unfold TTLCache.get. destruct (TTLCache.cache c !! k) as [it|] eqn:Hk.
    + destruct (TTLCache.ttl c <? now - TTLCache.timestamp it)%Z eqn:Hage; simpl.
      * rewrite lookup_delete_eq. reflexivity.
      * rewrite Hk, Hage. reflexivity.
    + simpl. rewrite Hk. reflexivity.
Qed.

End CacheMore.

(** ** Combo fetcher *)

Section FetcherMore.
Implicit Types (w : World) (name : jsstring) (net : jsstring -> FetchOutcome).

Lemma world_eta w : {| cache := cache w; requests := requests w |} = w.
Proof. destruct w. reflexivity. Qed.

Lemma validEntry_truthy v : validEntry v -> truthy v = true <-> v <> JNull.
Proof.
  intros [-> | (records & -> & _ & _)]; simpl; split; congruence.
Qed.

End FetcherMore.

(** X6: a cached value that is truthy and not older than the TTL is
    returned as it is; no request is issued and the cache is not touched. *)
Theorem fetch_returns_cached net tGet tSet name w it :
  TTLCache.cache (cache w) !! name = Some it ->
  (tGet - TTLCache.timestamp it <= TTLCache.ttl (cache w))%Z ->
  truthy (TTLCache.value it) = true ->
  fetchComboData net tGet tSet name w = (TTLCache.value it, w).
Proof.
  intros Hit Hage Ht.
  pose proof (get_fresh tGet name (cache w) it Hit Hage) as Hg.
  rewrite fetch_hit; rewrite Hg; simpl; [|exact Ht].
  rewrite world_eta. reflexivity.
Qed.

(** X7: a result that is not [null] is served from the cache afterwards.
    When a call misses, gets a 2xx answer and computes a non-null result,
    it returns that result after one request, and a second call for the
    same name, begun no later than the TTL after the write, returns the
    same result without a request, whatever the network would answer. *)
Theorem fetch_then_hit net net' t1 t2 t3 t4 name w status data result :
  truthy (fst (TTLCache.get t1 name (cache w))) = false ->
  net (comboUrl (formatCardName name)) = FetchResponse status (Some data) ->
  ok status = true ->
  combosOfBody name (formatCardName name) data = Normal result ->
  result <> JNull ->
  (t3 - t2 <= TTLCache.ttl (cache w))%Z ->
  let w1 := snd (fetchComboData net t1 t2 name w) in
  fst (fetchComboData net t1 t2 name w) = result
  /\ requests w1 = requests w ++ [comboUrl (formatCardName name)]
  /\ fetchComboData net' t3 t4 name w1 = (result, w1).
Proof.
  intros Ht Hnet Hok Hres Hnn Hage w1. subst w1.
  rewrite (fetch_miss net t1 t2 name w Ht), Hnet, Hok, Hres. simpl.
  split; [reflexivity|]. split; [reflexivity|].
  set (c1 := snd (TTLCache.get t1 name (cache w))).
  set (w1 := {| cache := TTLCache.set t2 name result c1;
                requests := requests w ++ [comboUrl (formatCardName name)] |}).
  assert (Hlook : TTLCache.cache (cache w1) !! name
                  = Some {| TTLCache.value := result; TTLCache.timestamp := t2 |})
    by apply lookup_set.
  assert (Hfresh : (t3 - t2 <= TTLCache.ttl (cache w1))%Z).
  { simpl. subst c1. rewrite ttl_get. exact Hage. }
  pose proof (get_fresh t3 name (cache w1) _ Hlook Hfresh) as Hg.
  assert (Htruthy : truthy result = true)
    by (apply validEntry_truthy; [exact (combosOfBody_valid _ _ _ _ Hres) | exact Hnn]).
  rewrite fetch_hit; rewrite Hg; simpl; [|exact Htruthy]. reflexivity.
Qed.

(** X8: failures are not cached.  When the request fails, or the body of
    a 2xx answer does not parse, or handling the parsed body throws, the
    fetcher returns [null] and writes nothing: the cache is the one the
    lookup left, and the request is the only trace. *)
Theorem fetch_failure_not_cached net tGet tSet name w :
  truthy (fst (TTLCache.get tGet name (cache w))) = false ->
  (net (comboUrl (formatCardName name)) = FetchRejected
   \/ (exists status, ok status = true
         /\ net (comboUrl (formatCardName name)) = FetchResponse status None)
   \/ (exists status data, ok status = true
         /\ net (comboUrl (formatCardName name)) = FetchResponse status (Some data)
         /\ combosOfBody name (formatCardName name) data = Throw)) ->
  fetchComboData net tGet tSet name w
  = (JNull, {| cache := snd (TTLCache.get tGet name (cache w));
               requests := requests w ++ [comboUrl (formatCardName name)] |}).
Proof.
  intros Ht Hnet. rewrite (fetch_miss net tGet tSet name w Ht).
  destruct Hnet as [-> | [(status & Hok & ->) | (status & data & Hok & -> & Hbody)]].
  - reflexivity.
  - rewrite Hok. reflexivity.
  - rewrite Hok, Hbody. reflexivity.
Qed.

(** X9: an entry older than the TTL is not served, whatever it holds: the
    lookup purges it and the request is issued; afterwards the name has no
    entry or one written by this call. *)
Theorem fetch_expired_refetches net tGet tSet name w it :
  TTLCache.cache (cache w) !! name = Some it ->
  (TTLCache.ttl (cache w) < tGet - TTLCache.timestamp it)%Z ->
  let w' := snd (fetchComboData net tGet tSet name w) in
  requests w' = requests w ++ [comboUrl (formatCardName name)]
  /\ (TTLCache.cache (cache w') !! name = None
      \/ exists v, TTLCache.cache (cache w') !! name
                   = Some {| TTLCache.value := v; TTLCache.timestamp := tSet |}
                   /\ v = fst (fetchComboData net tGet tSet name w)).
Proof.
  intros Hit Hage w'. subst w'.
  pose proof (get_stale tGet name (cache w) it Hit Hage) as Hg.
  assert (Ht : truthy (fst (TTLCache.get tGet name (cache w))) = false)
    by (rewrite Hg; reflexivity).
  split; [apply fetch_miss_requests, Ht|].
  rewrite (fetch_miss net tGet tSet name w Ht), Hg. simpl.
  assert (Hnone : delete name (TTLCache.cache (cache w)) !! name = None)
    by apply lookup_delete_eq.
  destruct (net _) as [|status body]; [left; exact Hnone|].
  destruct (negb (ok status)).
  - destruct (status =? 403)%Z; [|left; exact Hnone].
    right. exists JNull. simpl. rewrite lookup_insert_eq. auto.
  - destruct body as [data|]; [|left; exact Hnone].
    destruct (combosOfBody _ _ data) as [result|]; [|left; exact Hnone].
    right. exists result. simpl. rewrite lookup_insert_eq. auto.
Qed.

(** X10: a call issues one request at most, to the URL of the name's slug,
    and it issues none exactly when the lookup returned a truthy value. *)
Theorem fetch_at_most_one_request net tGet tSet name w :
  let w' := snd (fetchComboData net tGet tSet name w) in
  (truthy (fst (TTLCache.get tGet name (cache w))) = true /\ requests w' = requests w)
  \/ (truthy (fst (TTLCache.get tGet name (cache w))) = false
      /\ requests w' = requests w ++ [js "https://json.edhrec.com/pages/combos/"
                                      ++ formatCardName name ++ js ".json"]).
Proof.
  intros w'. subst w'.
  destruct (truthy (fst (TTLCache.get tGet name (cache w)))) eqn:Ht.
  - left. rewrite (fetch_hit net tGet tSet name w Ht). auto.
  - right. split; [reflexivity|]. exact (fetch_miss_requests net tGet tSet name w Ht).
Qed.

(** X11: on a cache that holds the invariant, what the fetcher returns is
    [null] or a non-empty array of records, never an empty array. *)
Theorem fetch_returns_valid net tGet tSet name w :
  cacheInvariant (cache w) ->
  validEntry (fst (fetchComboData net tGet tSet name w))
  /\ fst (fetchComboData net tGet tSet name w) <> JArr [].
Proof.
  intros Hw.
  assert (Hvalid : validEntry (fst (fetchComboData net tGet tSet name w))).
  { destruct (truthy (fst (TTLCache.get tGet name (cache w)))) eqn:Ht.
    - rewrite (fetch_hit net tGet tSet name w Ht). simpl.
      destruct (get_cases tGet name (cache w)) as [[-> _]|(it & Hit & _ & ->)];
        [left; reflexivity|].
      exact (Hw name it Hit).
    - rewrite (fetch_miss net tGet tSet name w Ht).
      destruct (net _) as [|status body]; [left; reflexivity|].
      destruct (negb (ok status)); [destruct (status =? 403)%Z; left; reflexivity|].
      destruct body as [data|]; [|left; reflexivity].
      destruct (combosOfBody _ _ data) as [result|] eqn:Hres; [|left; reflexivity].
      exact (combosOfBody_valid _ _ _ _ Hres). }
  split; [exact Hvalid|].
  destruct Hvalid as [-> | (records & -> & Hne & _)]; congruence.
Qed.

(** X12: a 2xx body in which [data.container?.json_dict?.cardlists] is
    missing or falsy counts as "no combos": the fetcher returns [null] and
    stores [null] under the raw name. *)
Theorem fetch_body_without_cardlists net tGet tSet name w status data container :
  truthy (fst (TTLCache.get tGet name (cache w))) = false ->
  net (comboUrl (formatCardName name)) = FetchResponse status (Some data) ->
  ok status = true ->
  getProp data s_container = Normal container ->
  truthy (optProp (optProp container s_json_dict) s_cardlists) = false ->
  fetchComboData net tGet tSet name w
  = (JNull, {| cache := TTLCache.set tSet name JNull (snd (TTLCache.get tGet name (cache w)));
               requests := requests w ++ [comboUrl (formatCardName name)] |}).
Proof.
  intros Ht Hnet Hok Hc Hfalsy.
  rewrite (fetch_miss net tGet tSet name w Ht), Hnet, Hok. simpl.
  unfold combosOfBody, combosOf. rewrite Hc. simpl. unfold orElse. rewrite Hfalsy.
  reflexivity.
Qed.

(** X13: a call touches the entry of its own raw name only: the entries of
    all other names, also of names with the same slug, are as before. *)
Theorem fetch_touches_own_key_only net tGet tSet name w k :
  k <> name ->
  TTLCache.cache (cache (snd (fetchComboData net tGet tSet name w))) !! k
  = TTLCache.cache (cache w) !! k.
Proof.
  intros Hk.
  destruct (truthy (fst (TTLCache.get tGet name (cache w)))) eqn:Ht.
  - rewrite (fetch_hit net tGet tSet name w Ht). reflexivity.
  - rewrite (fetch_miss net tGet tSet name w Ht).
    assert (Hc1 : TTLCache.cache (snd (TTLCache.get tGet name (cache w))) !! k
                  = TTLCache.cache (cache w) !! k).
    { destruct (get_cases tGet name (cache w)) as [[_ [-> | ->]]|(it & _ & _ & ->)];
        [reflexivity | | reflexivity].
      simpl. apply lookup_delete_ne. congruence. }
    assert (Hset : forall v,
      TTLCache.cache (TTLCache.set tSet name v (snd (TTLCache.get tGet name (cache w)))) !! k
      = TTLCache.cache (cache w) !! k).
    { intros v. rewrite lookup_set_ne by congruence. exact Hc1. }
    destruct (net _) as [|status body]; [exact Hc1|].
    destruct (negb (ok status)); [destruct (status =? 403)%Z; [apply Hset | exact Hc1]|].
    destruct body as [data|]; [|exact Hc1].
    destruct (combosOfBody _ _ data); [apply Hset | exact Hc1].
Qed.

(** ** Card identity resolver *)

Section ExtractorFacts.

Lemma startsWith_prefix p t : startsWith (p ++ t) p = true.
Proof.
  induction p as [|a p IH]; [destruct t; reflexivity|].
  simpl. rewrite N.eqb_refl. exact IH.
Qed.

Lemma startsWith_split s p : startsWith s p = true -> s = p ++ drop (length p) s.
Proof.
  revert s. induction p as [|a p IH]; intros s; [reflexivity|].
  destruct s as [|b s]; [discriminate|]. cbn [startsWith].
  intros Hs. apply andb_true_iff in Hs. destruct Hs as [Hab Hs].
  apply N.eqb_eq in Hab. subst b. simpl. f_equal. apply IH, Hs.
Qed.

Lemma startsWith_long u x p :
  (length p <= length u)%nat -> startsWith (u ++ x) p = startsWith u p.
Proof.
  revert u. induction p as [|a p IH]; intros u Hlen; [destruct u, x; reflexivity|].
  destruct u as [|b u]; [simpl in Hlen; lia|].
  cbn [app startsWith]. rewrite IH by (simpl in Hlen; lia). reflexivity.
Qed.

Lemma hashRun_found h rest : ~ In hyphen h -> hashRun (h ++ hyphen :: rest) = Some h.
Proof.
  induction h as [|u h IH]; intros Hn; [reflexivity|].
  cbn [app hashRun]. destruct (N.eqb_spec u hyphen) as [->|_]; [exfalso; apply Hn; left; reflexivity|].
  rewrite IH by (intros Hin; apply Hn; right; exact Hin). reflexivity.
Qed.

Lemma hashRun_sound s h :
  hashRun s = Some h -> ~ In hyphen h /\ exists rest, s = h ++ hyphen :: rest.
Proof.
  revert h. induction s as [|u s IH]; intros h; [discriminate|].
  cbn [hashRun]. destruct (N.eqb_spec u hyphen) as [->|Hu].
  - intros [= <-]. split; [intros []|]. exists s. reflexivity.
  - destruct (hashRun s) as [h'|]; [|discriminate]. simpl. intros [= <-].
    destruct (IH h' eq_refl) as (Hn & rest & ->).
    split; [intros [Heq | Hin]; [congruence | exact (Hn Hin)]|].
    exists rest. reflexivity.
Qed.

Lemma matchHere_sound s h :
  matchHere s = Some h ->
  h <> [] /\ ~ In hyphen h /\ exists rest, s = cardPrefix ++ h ++ hyphen :: rest.
Proof.
  unfold matchHere. destruct (startsWith s cardPrefix) eqn:Hs; [|discriminate].
  apply startsWith_split in Hs. change (length cardPrefix) with 6%nat in Hs.
  destruct (hashRun (drop 6 s)) as [[|u r]|] eqn:Hr; try discriminate.
  intros [= <-]. destruct (hashRun_sound _ _ Hr) as (Hn & rest & Hrest).
  split; [discriminate|]. split; [exact Hn|].
  exists rest. rewrite Hs at 1. rewrite Hrest. reflexivity.
Qed.

Lemma matchHere_found h rest :
  h <> [] -> ~ In hyphen h -> matchHere (cardPrefix ++ h ++ hyphen :: rest) = Some h.
Proof.
  intros Hne Hn. unfold matchHere. rewrite startsWith_prefix.
  change (drop 6 (cardPrefix ++ h ++ hyphen :: rest)) with (h ++ hyphen :: rest).
  rewrite (hashRun_found h rest Hn). destruct h; [congruence | reflexivity].
Qed.

Lemma extract_sound src h :
  extractDataHashFromImageSrc src = JStr h ->
  h <> [] /\ ~ In hyphen h
  /\ exists before after, src = before ++ cardPrefix ++ h ++ hyphen :: after.
Proof.
  induction src as [|u src IH]; cbn [extractDataHashFromImageSrc].
  - destruct (matchHere []) eqn:Hm; [discriminate Hm | discriminate].
  - destruct (matchHere (u :: src)) as [h'|] eqn:Hm.
    + intros [= <-]. destruct (matchHere_sound _ _ Hm) as (Hne & Hn & rest & Hs).
      split; [exact Hne|]. split; [exact Hn|]. exists [], rest. exact Hs.
    + intros Hr. destruct (IH Hr) as (Hne & Hn & before & after & ->).
      split; [exact Hne|]. split; [exact Hn|]. exists (u :: before), after. reflexivity.
Qed.

Lemma extract_cases src :
  extractDataHashFromImageSrc src = JNull
  \/ exists h, extractDataHashFromImageSrc src = JStr h.
Proof.
  induction src as [|u src IH]; cbn [extractDataHashFromImageSrc].
  - destruct (matchHere []); eauto.
  - destruct (matchHere (u :: src)); eauto.
Qed.

Lemma extract_none src :
  includes src cardPrefix = false -> extractDataHashFromImageSrc src = JNull.
Proof.
  induction src as [|u src IH].
  - reflexivity.
  - rewrite includes_cons. intros Hi. apply orb_false_iff in Hi. destruct Hi as [Hs Hi].
    cbn [extractDataHashFromImageSrc]. unfold matchHere at 1. rewrite Hs. exact (IH Hi).
Qed.

Lemma extract_found p h rest :
  includes (p ++ js "/card") cardPrefix = false ->
  h <> [] -> ~ In hyphen h ->
  extractDataHashFromImageSrc (p ++ cardPrefix ++ h ++ hyphen :: rest) = JStr h.
Proof.
  intros Hp Hne Hn. induction p as [|a p IH].
  - cbn [app]. assert (Hm := matchHere_found h rest Hne Hn).
    destruct (cardPrefix ++ h ++ hyphen :: rest) eqn:Hs; [discriminate|].
    cbn [extractDataHashFromImageSrc]. rewrite Hm. reflexivity.
  - cbn [app] in Hp |- *. rewrite includes_cons in Hp.
    apply orb_false_iff in Hp. destruct Hp as [Hs Hp].
    assert (Hstart : startsWith (a :: p ++ cardPrefix ++ h ++ hyphen :: rest) cardPrefix
                     = false).
    { replace (a :: p ++ cardPrefix ++ h ++ hyphen :: rest)
        with (((a :: p) ++ js "/card") ++ (hyphen :: h ++ hyphen :: rest))
        by (rewrite <- List.app_assoc; reflexivity).
      rewrite startsWith_long; [exact Hs|]. rewrite length_app. simpl. lia. }
    cbn [extractDataHashFromImageSrc]. unfold matchHere at 1. rewrite Hstart.
    exact (IH Hp).
Qed.

End ExtractorFacts.

(** X14: whatever the URL, the extractor returns [null] or a hash that is
    not empty, holds no hyphen, and stands in the URL between [/card-] and
    a hyphen. *)
Theorem extract_hash_sound (src : jsstring) :
  extractDataHashFromImageSrc src = JNull
  \/ exists h before after,
       extractDataHashFromImageSrc src = JStr h
       /\ h <> [] /\ ~ In hyphen h
       /\ src = before ++ js "/card-" ++ h ++ hyphen :: after.
Proof.
  destruct (extract_cases src) as [Hn | (h & Hh)]; [left; exact Hn|].
  right. destruct (extract_sound src h Hh) as (Hne & Hnh & before & after & Hs).
  exists h, before, after. auto.
Qed.

(** X15: a URL that does not contain [/card-] yields [null]. *)
Theorem extract_hash_needs_marker (src : jsstring) :
  includes src (js "/card-") = false -> extractDataHashFromImageSrc src = JNull.
Proof.
  induction src as [|u src IH]; [reflexivity|].
  rewrite includes_cons. intros Hi. apply orb_false_iff in Hi. destruct Hi as [Hs Hi].
  cbn [extractDataHashFromImageSrc]. unfold matchHere at 1.
  change cardPrefix with (js "/card-"). rewrite Hs. exact (IH Hi).
Qed.

(** X16: the extractor finds the hash of a URL built around it.  When the
    part before [/card-] brings no earlier [/card-] and the hash is
    non-empty and free of hyphens, the URL [before/card-hash-rest] yields
    exactly the hash, whatever follows. *)
Theorem extract_hash_round_trip (before h rest : jsstring) :
  includes (before ++ js "/card") (js "/card-") = false ->
  h <> [] -> ~ In hyphen h ->
  extractDataHashFromImageSrc (before ++ js "/card-" ++ h ++ hyphen :: rest) = JStr h.
Proof. apply extract_found. Qed.

Lemma extract_hash_round_trip_witness :
  let before := js "https://assets.moxfield.net/cards" in
  let h := js "k7lVb" in
  let rest := js "normal.webp?204767761" in
  (includes (before ++ js "/card") (js "/card-") = false /\ h <> [] /\ ~ In hyphen h)
  /\ extractDataHashFromImageSrc
       (js "https://assets.moxfield.net/cards/card-k7lVb-normal.webp?204767761")
     = JStr (js "k7lVb").
Proof.
  intros before h rest.
  assert (H1 : includes (before ++ js "/card") (js "/card-") = false) by reflexivity.
  assert (H2 : h <> []) by discriminate.
  assert (H3 : ~ In hyphen h).
  { vm_compute. intros Hin. repeat (destruct Hin as [Hin | Hin]; [discriminate Hin|]). exact Hin. }
  split; [auto|].
  exact (extract_hash_round_trip before h rest H1 H2 H3).
Defined.

Lemma extract_hash_needs_marker_witness :
  includes (js "https://example.org/a.png") (js "/card-") = false
  /\ extractDataHashFromImageSrc (js "https://example.org/a.png") = JNull.
Proof.
  assert (H1 : includes (js "https://example.org/a.png") (js "/card-") = false) by reflexivity.
  split; [exact H1|]. exact (extract_hash_needs_marker _ H1).
Defined.

Section ResolverFacts.
Variable queryDataHash : jsstring -> document -> completion (option node).

Lemma trimmed_nil : trimmedString [].
Proof. split; intros u Hu; discriminate Hu. Qed.

Lemma orNull_name s : trimmedString s -> isCardName (orNull s).
Proof.
  intros Hs. destruct s as [|u r]; [left; reflexivity|].
  right. exists (u :: r). split; [reflexivity|]. split; [discriminate | exact Hs].
Qed.

Lemma findCardNameByHash_name hash doc v :
  findCardNameByHash queryDataHash hash doc = Normal v -> isCardName v.
Proof.
  unfold findCardNameByHash, bind.
  destruct (queryDataHash hash doc) as [[element|]|]; [| |discriminate].
  - intros [= <-]. apply orNull_name.
    destruct (findFirst isPhantomSearch (childrenOf element)) as [phantomDiv|].
    + destruct (trimmedText phantomDiv) as [|u r] eqn:Hph.
      * destruct (findFirst isDeckLink (childrenOf element)) as [deckLink|];
          [apply trim_trimmed | apply trimmed_nil].
      * rewrite <- Hph. apply trim_trimmed.
    + destruct (findFirst isDeckLink (childrenOf element)) as [deckLink|];
        [apply trim_trimmed | apply trimmed_nil].
  - intros [= <-]. left. reflexivity.
Qed.

Lemma getCurrentDisplayCardName_name doc v :
  getCurrentDisplayCardName queryDataHash doc = Normal v -> isCardName v.
Proof.
  unfold getCurrentDisplayCardName.
  destruct (findFirst isPreviewImage doc) as [imgElement|];
    [|intros [= <-]; left; reflexivity].
  destruct (srcOf imgElement) as [|u src]; [intros [= <-]; left; reflexivity|].
  destruct (extractDataHashFromImageSrc (u :: src)) as [| | | |h| |];
    try (intros [= <-]; left; reflexivity).
  destruct (truthy (JStr h)); [apply findCardNameByHash_name|].
  intros [= <-]. left. reflexivity.
Qed.

Lemma resolver_without_marker doc :
  (forall img, findFirst isPreviewImage doc = Some img ->
               includes (srcOf img) (js "/card-") = false) ->
  getCurrentDisplayCardName queryDataHash doc = Normal JNull.
Proof.
  intros Hsrc. unfold getCurrentDisplayCardName.
  destruct (findFirst isPreviewImage doc) as [imgElement|]; [|reflexivity].
  specialize (Hsrc imgElement eq_refl).
  destruct (srcOf imgElement) as [|u s]; [reflexivity|].
  rewrite (extract_none _ Hsrc). reflexivity.
Qed.

Lemma resolver_with_hash doc img before h rest :
  findFirst isPreviewImage doc = Some img ->
  srcOf img = before ++ js "/card-" ++ h ++ hyphen :: rest ->
  includes (before ++ js "/card") (js "/card-") = false ->
  h <> [] -> ~ In hyphen h ->
  getCurrentDisplayCardName queryDataHash doc = findCardNameByHash queryDataHash h doc.
Proof.
  intros Himg Hsrc Hbefore Hne Hn. unfold getCurrentDisplayCardName.
  rewrite Himg. pose proof (extract_found before h rest Hbefore Hne Hn) as Hx.
  change cardPrefix with (js "/card-") in Hx. rewrite <- Hsrc in Hx.
  destruct (srcOf img) as [|u s] eqn:Hs.
  - destruct before; discriminate Hsrc.
  - rewrite Hx. destruct h; [congruence | reflexivity].
Qed.

End ResolverFacts.

(** X17: whatever the selector engine does, a card name the resolver
    returns is [null] or a string that is not empty and has no white space
    at either end; so the test [if (name)] of [fetchCombo] lets exactly
    the non-null names pass. *)
Theorem resolver_name_shape
    (queryDataHash : jsstring -> document -> completion (option node)) (doc : document) :
  (forall hash v, findCardNameByHash queryDataHash hash doc = Normal v -> isCardName v)
  /\ (forall v, getCurrentDisplayCardName queryDataHash doc = Normal v ->
                isCardName v /\ (truthy v = true <-> v <> JNull)).
Proof.
  split; [intros hash v; apply findCardNameByHash_name|].
  intros v Hv. pose proof (getCurrentDisplayCardName_name _ doc v Hv) as Hname.
  split; [exact Hname|].
  destruct Hname as [-> | (name & -> & Hne & _)]; simpl.
  - split; congruence.
  - destruct name; [congruence|]. split; [discriminate | reflexivity].
Qed.

(** X18: the resolver fails soft.  Without a preview image, or with one
    whose [src] is empty or holds no [/card-], it returns [null] and never
    reaches the query for the hash (so an engine that would throw is not
    called); and when that query finds no element the name is [null]. *)
Theorem resolver_fails_soft
    (queryDataHash : jsstring -> document -> completion (option node)) (doc : document) :
  ((forall img, findFirst isPreviewImage doc = Some img ->
                includes (srcOf img) (js "/card-") = false) ->
   getCurrentDisplayCardName queryDataHash doc = Normal JNull
   /\ getCurrentDisplayCardName (fun _ _ => Throw) doc = Normal JNull)
  /\ (forall hash, queryDataHash hash doc = Normal None ->
                   findCardNameByHash queryDataHash hash doc = Normal JNull).
Proof.
  split.
  - intros Hsrc. split; apply resolver_without_marker; exact Hsrc.
  - intros hash Hq. unfold findCardNameByHash. rewrite Hq. reflexivity.
Qed.

(** X19: the resolver end to end.  When the preview image's URL holds the
    hash (as in X16) and the query for that hash finds an element, the
    name is the trimmed text of the element's phantom-search node if that
    is not blank, and otherwise the trimmed text of its deck link ([null]
    when that is blank too). *)
Theorem resolver_reads_name
    (queryDataHash : jsstring -> document -> completion (option node))
    (doc : document) (img element : node) (before h rest : jsstring) :
  findFirst isPreviewImage doc = Some img ->
  srcOf img = before ++ js "/card-" ++ h ++ hyphen :: rest ->
  includes (before ++ js "/card") (js "/card-") = false ->
  h <> [] -> ~ In hyphen h ->
  queryDataHash h doc = Normal (Some element) ->
  (forall phantomDiv,
     findFirst isPhantomSearch (childrenOf element) = Some phantomDiv ->
     trim (textContent phantomDiv) <> [] ->
     getCurrentDisplayCardName queryDataHash doc
     = Normal (JStr (trim (textContent phantomDiv))))
  /\ ((forall phantomDiv,
         findFirst isPhantomSearch (childrenOf element) = Some phantomDiv ->
         trim (textContent phantomDiv) = []) ->
      forall deckLink,
        findFirst isDeckLink (childrenOf element) = Some deckLink ->
        getCurrentDisplayCardName queryDataHash doc
        = Normal (orNull (trim (textContent deckLink)))).
Proof.
  intros Himg Hsrc Hbefore Hne Hn Hq.
  rewrite (resolver_with_hash queryDataHash doc img before h rest Himg Hsrc Hbefore Hne Hn).
  unfold findCardNameByHash. rewrite Hq. simpl. unfold trimmedText. split.
  - intros phantomDiv Hph Htext. rewrite Hph.
    destruct (trim (textContent phantomDiv)); [congruence | reflexivity].
  - intros Hblank deckLink Hlink. rewrite Hlink.
    destruct (findFirst isPhantomSearch (childrenOf element)) as [phantomDiv|];
      [|reflexivity].
    rewrite (Hblank phantomDiv eq_refl). reflexivity.
Qed.

Lemma resolver_fails_soft_witness :
  (forall img, findFirst isPreviewImage barePage = Some img ->
               includes (srcOf img) (js "/card-") = false)
  /\ getCurrentDisplayCardName byDataHash barePage = Normal JNull.
Proof.
  assert (H1 : forall img, findFirst isPreviewImage barePage = Some img ->
                           includes (srcOf img) (js "/card-") = false)
    by (intros img Himg; discriminate Himg).
  split; [exact H1|].
  exact (proj1 (proj1 (resolver_fails_soft byDataHash barePage) H1)).
Defined.

Lemma resolver_reads_name_witness :
  (findFirst isPreviewImage deckPage = Some previewImage
   /\ byDataHash (js "k7lVb") deckPage = Normal (Some deckRow)
   /\ findFirst isDeckLink (childrenOf deckRow) = Some deckLink)
  /\ getCurrentDisplayCardName byDataHash deckPage
     = Normal (JStr (js "Dockside Extortionist")).
Proof.
  assert (H1 : findFirst isPreviewImage deckPage = Some previewImage) by reflexivity.
  assert (H2 : srcOf previewImage
               = js "https://assets.moxfield.net/cards" ++ js "/card-" ++ js "k7lVb"
                 ++ hyphen :: js "normal.webp?204767761") by reflexivity.
  assert (H3 : includes (js "https://assets.moxfield.net/cards" ++ js "/card") (js "/card-")
               = false) by reflexivity.
  assert (H4 : js "k7lVb" <> []) by discriminate.
  assert (H5 : ~ In hyphen (js "k7lVb")).
  { vm_compute. intros Hin. repeat (destruct Hin as [Hin | Hin]; [discriminate Hin|]). exact Hin. }
  assert (H6 : byDataHash (js "k7lVb") deckPage = Normal (Some deckRow)) by reflexivity.
  assert (H7 : forall phantomDiv,
             findFirst isPhantomSearch (childrenOf deckRow) = Some phantomDiv ->
             trim (textContent phantomDiv) = [])
    by (intros phantomDiv Hph; discriminate Hph).
  assert (H8 : findFirst isDeckLink (childrenOf deckRow) = Some deckLink) by reflexivity.
  split; [auto|].
  rewrite (proj2 (resolver_reads_name byDataHash deckPage previewImage deckRow _ _ _
                    H1 H2 H3 H4 H5 H6) H7 deckLink H8).
  vm_compute. reflexivity.
Defined.

(** ** Result renderer *)

Section RendererMore.

Lemma count_zero_node q n :
  countIn q n = 0%nat ->
  q n = false /\ forall f, rewriteIn q f n = None.
Proof.
  destruct n as [d|tag i classes attrs ch].
  - rewrite countIn_text. destruct (q (TextNode d)); [lia|]. intros _. split; reflexivity.
  - rewrite countIn_element.
    destruct (q (Element tag i classes attrs ch)); [lia|]. intros Hc.
    split; [reflexivity|]. intros f. rewrite rewriteIn_element.
    rewrite (proj2 (rewriteFirst_none q f ch)); [reflexivity|].
    apply findFirst_none_count. lia.
Qed.

Lemma remove_last_child q ch child :
  count q ch = 0%nat -> q child = true ->
  rewriteFirst q (fun _ => []) (ch ++ [child]) = Some ch.
Proof.
  intros Hc Hq. induction ch as [|c r IH].
  - cbn [app rewriteFirst]. rewrite Hq. reflexivity.
  - cbn [count] in Hc. destruct (count_zero_node q c ltac:(lia)) as [Hqc Hin].
    cbn [app rewriteFirst]. rewrite Hqc, Hin, IH by lia. reflexivity.
Qed.

(** Removing the node that was just appended gives the page back. *)
Lemma remove_appended (p q : node -> bool) child l l' :
  shallow p -> shallow q -> (forall d, p (TextNode d) = false) ->
  count q l = 0%nat -> q child = true ->
  rewriteFirst p (withChild child) l = Some l' ->
  rewriteFirst q (fun _ => []) l' = Some l.
Proof.
  intros Hp Hq Htext. revert l'.
  induction l as [| d r IH | tag i classes attrs ch r IHch IH] using forest_ind;
    intros l' Hc Hchild; [discriminate | |].
  - cbn [count] in Hc. destruct (count_zero_node q (TextNode d) ltac:(lia)) as [Hqd Hin].
    cbn [rewriteFirst]. rewrite Htext, rewriteIn_text.
    destruct (rewriteFirst p (withChild child) r) as [r'|] eqn:Hr; [|discriminate].
    cbn [option_map]. intros [= <-].
    cbn [rewriteFirst]. rewrite Hqd, rewriteIn_text, (IH r' ltac:(lia) Hchild eq_refl).
    reflexivity.
  - cbn [count] in Hc.
    destruct (count_zero_node q (Element tag i classes attrs ch) ltac:(lia)) as [Hqc Hin].
    assert (Hch : count q ch = 0%nat) by (rewrite countIn_element in Hc; lia).
    cbn [rewriteFirst]. rewrite rewriteIn_element.
    destruct (p (Element tag i classes attrs ch)) eqn:Hpc.
    + cbn [withChild app]. intros [= <-].
      cbn [rewriteFirst]. rewrite (Hq tag i classes attrs _ ch), Hqc, rewriteIn_element.
      rewrite (remove_last_child q ch child Hch Hchild). reflexivity.
    + destruct (rewriteFirst p (withChild child) ch) as [ch'|] eqn:Hrw; cbn [option_map].
      * intros [= <-]. cbn [rewriteFirst].
        rewrite (Hq tag i classes attrs ch' ch), Hqc, rewriteIn_element.
        rewrite (IHch ch' Hch Hchild eq_refl). reflexivity.
      * destruct (rewriteFirst p (withChild child) r) as [r'|] eqn:Hr; [|discriminate].
        cbn [option_map]. intros [= <-].
        cbn [rewriteFirst]. rewrite Hqc, Hin, (IH r' ltac:(lia) Hchild eq_refl).
        reflexivity.
Qed.

Lemma removeById_clean doc :
  count (hasId panelId) doc = 0%nat -> removeById panelId doc = doc.
Proof.
  intros Hc. unfold removeById.
  rewrite (proj2 (rewriteFirst_none (hasId panelId) (fun _ => []) doc)); [reflexivity|].
  apply findFirst_none_count, Hc.
Qed.

(** The renderer looks at the page only through what is left of it when
    the located element is removed. *)
Lemma render_via_removed name comboData doc doc' :
  removeById panelId doc = removeById panelId doc' ->
  displayComboResults name comboData doc = displayComboResults name comboData doc'.
Proof.
  intros Heq. unfold displayComboResults. rewrite !existing_removed, Heq. reflexivity.
Qed.

(** What a call can make of the page. *)
Lemma render_outcomes name comboData doc :
  let removed := removeById panelId doc in
  displayComboResults name comboData doc = Returned removed
  \/ (displayComboResults name comboData doc = Thrown removed
      /\ truthy comboData = true)
  \/ exists tag i classes attrs children len combos entries,
       findFirst isAnchor removed = Some (Element tag i classes attrs children)
       /\ getProp comboData s_length = Normal len
       /\ comboData = JArr combos
       /\ mapOf comboContainer combos = Normal entries
       /\ displayComboResults name comboData doc
          = Returned (appendChildTo isAnchor (comboDisplay (headerText name len) entries)
                        removed).
Proof.
  intros removed. unfold displayComboResults. rewrite existing_removed. fold removed.
  destruct (truthy comboData) eqn:Ht; cbn [negb]; [|left; reflexivity].
  destruct (findFirst isAnchor removed) as [a|] eqn:Ha; [|left; reflexivity].
  pose proof (findFirst_accepts isAnchor _ _ Ha) as Hacc.
  destruct a as [d|tag i classes attrs children]; [discriminate|].
  unfold bind.
  destruct (getProp comboData s_length) as [len|] eqn:Hlen; [|right; left; auto].
  destruct (ToString len) as [shown|]; [|right; left; auto].
  destruct comboData as [| | | | |combos|]; try (right; left; split; reflexivity).
  cbn [asArray].
  destruct (mapOf comboContainer combos) as [entries|] eqn:He; [|right; left; auto].
  right. right. exists tag, i, classes, attrs, children, len, combos, entries.
  repeat split; try reflexivity; assumption.
Qed.

Lemma removeById_after_render name comboData doc :
  (count (hasId panelId) doc <= 1)%nat ->
  removeById panelId (pageAfter (displayComboResults name comboData doc))
  = removeById panelId doc.
Proof.
  intros Hone. destruct (removeById_count doc) as [Hid _].
  assert (Hzero : count (hasId panelId) (removeById panelId doc) = 0%nat) by lia.
  destruct (render_outcomes name comboData doc)
    as [-> | [[-> _] | (tag & i & classes & attrs & children & len & combos & entries
                        & Ha & _ & _ & _ & ->)]];
    cbn [pageAfter]; try (apply removeById_clean, Hzero).
  destruct (append_first isAnchor (comboDisplay (headerText name len) entries)
              _ _ _ _ _ _ isAnchor_shallow Ha) as (page & Hrw & _ & _).
  assert (Hpanel : hasId panelId (comboDisplay (headerText name len) entries) = true)
    by reflexivity.
  unfold appendChildTo. rewrite Hrw. unfold removeById at 1.
  rewrite (remove_appended isAnchor (hasId panelId) _ _ page
             isAnchor_shallow (hasId_shallow panelId) (fun _ => eq_refl) Hzero Hpanel Hrw).
  reflexivity.
Qed.

Lemma textual_printable v : textual v = true -> printable v = true.
Proof. destruct v; try discriminate; reflexivity. Qed.

Lemma setTextContent_textual v :
  textual v = true -> setTextContent v = Normal (textContentOf v).
Proof. destruct v; try discriminate; reflexivity. Qed.

Lemma resultItems_built results :
  forallb textual results = true ->
  mapOf resultItem results
  = Normal (map (fun r => Element (js "li") [] [] [(s_style, resultItemStyle)]
                            (textContentOf r)) results).
Proof.
  induction results as [|r results IH]; [reflexivity|].
  cbn [forallb]. intros [Hr Hrest]%andb_prop.
  cbn [mapOf map]. unfold resultItem at 1.
  rewrite (setTextContent_textual r Hr). cbn [bind]. rewrite (IH Hrest). reflexivity.
Qed.

Lemma comboContainer_record header href results :
  textualItem (header, href, results) = true ->
  comboContainer (comboRecord header href results) = Normal (entryOf header href results).
Proof.
  unfold textualItem. intros [[Hheader Hhref]%andb_prop Hresults]%andb_prop.
  unfold comboContainer, comboRecord, ToString. simpl getProp. cbn [bind].
  rewrite (textual_printable href Hhref). cbn [bind].
  rewrite (setTextContent_textual header Hheader). cbn [bind asArray].
  rewrite (resultItems_built results Hresults). reflexivity.
Qed.

Lemma entries_built items :
  forallb textualItem items = true ->
  mapOf comboContainer (recordsOf items) = Normal (entriesOf items).
Proof.
  induction items as [|[[header href] results] items IH]; [reflexivity|].
  cbn [forallb]. intros [Hitem Hrest]%andb_prop.
  cbn [recordsOf entriesOf map mapOf] in IH |- *.
  rewrite (comboContainer_record header href results Hitem). cbn [bind].
  unfold recordsOf, entriesOf in IH. rewrite (IH Hrest). reflexivity.
Qed.

End RendererMore.

(** X20: re-invoking the renderer fully replaces the previous panel.  On a
    page with at most one element of the panel's id, what a call makes of
    the page a previous call left is what it would have made of the page
    before that call: nothing of the previous panel remains. *)
Theorem render_replaces_previous name1 comboData1 name2 comboData2 doc :
  (count (hasId panelId) doc <= 1)%nat ->
  displayComboResults name2 comboData2
    (pageAfter (displayComboResults name1 comboData1 doc))
  = displayComboResults name2 comboData2 doc.
Proof.
  intros Hone. apply render_via_removed.
  exact (removeById_after_render name1 comboData1 doc Hone).
Qed.

(** X21: for records whose header, href and results are strings (or
    booleans, [null], [undefined]), with array results as the fetcher
    delivers them, and an anchor on the page, the renderer returns with a
    panel appended to the anchor whose header line shows the number of
    combos and whose grid holds one entry per combo, in order: an [a]
    whose [href] attribute is [https://edhrec.com] followed by the combo's
    href, unpaired surrogates replaced by U+FFFD, with the header in a
    [span] and one [li] per result. *)
Theorem render_lists_every_combo name items doc tag i classes attrs children :
  forallb textualItem items = true ->
  findFirst isAnchor (removeById panelId doc) = Some (Element tag i classes attrs children) ->
  let panel :=
    comboDisplay (headerText name (JNum (Z.of_nat (length items)))) (entriesOf items) in
  let page := appendChildTo isAnchor panel (removeById panelId doc) in
  displayComboResults name (JArr (recordsOf items)) doc = Returned page
  /\ findFirst isAnchor page = Some (Element tag i classes attrs (children ++ [panel]))
  /\ length (entriesOf items) = length items
  /\ forall n header href results,
       items !! n = Some (header, href, results) ->
       entriesOf items !! n
       = Some (Element (js "a") [] [js "border-primary"]
                 [(s_href, usvString (js "https://edhrec.com" ++ toString href));
                  (js "target", js "_blank");
                  (s_style, comboContainerStyle)]
                 [Element (js "span") [] [js "text-primary"] [(s_style, comboHeaderStyle)]
                    (textContentOf header);
                  Element (js "ul") [] [js "text-secondary"] [(s_style, resultsListStyle)]
                    (map (fun r => Element (js "li") [] [] [(s_style, resultItemStyle)]
                                     (textContentOf r)) results)]).
Proof.
  intros Hitems Ha panel page.
  destruct (append_first isAnchor panel _ _ _ _ _ _ isAnchor_shallow Ha)
    as (page' & Hrw & Hfind & _).
  assert (Hpage : page = page') by (subst page; unfold appendChildTo; rewrite Hrw; reflexivity).
  split; [|split; [rewrite Hpage; exact Hfind | split; [apply length_map|]]].
  - unfold displayComboResults. rewrite existing_removed, Ha.
    cbn [truthy negb asArray getProp bind].
    assert (Hlen : length (recordsOf items) = length items) by apply length_map.
    change (eqb s_length (js "length")) with true. cbn iota. rewrite Hlen.
    unfold ToString. cbn [printable bind].
    rewrite (entries_built items Hitems). reflexivity.
  - intros n header href results Hn. unfold entriesOf.
    rewrite list_lookup_fmap, Hn. reflexivity.
Qed.

(** X22: the renderer changes the page in two ways only: it removes the
    element the id locates, and it may append one finished panel to the
    anchor.  When there is no anchor, or building an entry throws, the
    page is left with the removal alone; no partly built panel is ever
    attached. *)
Theorem render_changes_page_in_two_ways name comboData doc :
  let removed := removeById panelId doc in
  (findFirst isAnchor removed = None ->
   displayComboResults name comboData doc = Returned removed)
  /\ (forall d, displayComboResults name comboData doc = Thrown d -> d = removed)
  /\ (pageAfter (displayComboResults name comboData doc) = removed
      \/ exists len entries,
           pageAfter (displayComboResults name comboData doc)
           = appendChildTo isAnchor (comboDisplay (headerText name len) entries) removed).
Proof.
  intros removed. split; [|split].
  - intros Hnone. unfold displayComboResults. rewrite existing_removed. fold removed.
    rewrite Hnone. destruct (negb (truthy comboData)); reflexivity.
  - intros d.
    destruct (render_outcomes name comboData doc)
      as [-> | [[-> _] | (tag & i & classes & attrs & children & len & combos & entries
                          & _ & _ & _ & _ & ->)]]; [discriminate | | discriminate].
    intros [= <-]. reflexivity.
  - destruct (render_outcomes name comboData doc)
      as [-> | [[-> _] | (tag & i & classes & attrs & children & len & combos & entries
                          & _ & _ & _ & _ & ->)]]; [left; reflexivity | left; reflexivity|].
    right. exists len, entries. reflexivity.
Qed.

(** X23: the renderer never leaves a second element with the panel's id.
    On a page with at most one such element, the page after any call,
    returned or thrown, has none when the call ended with the removal
    alone, and exactly one, the new panel, when a panel was appended. *)
Theorem render_keeps_single_panel name comboData doc :
  (count (hasId panelId) doc <= 1)%nat ->
  let page := pageAfter (displayComboResults name comboData doc) in
  (count (hasId panelId) page <= 1)%nat
  /\ ((page = removeById panelId doc /\ count (hasId panelId) page = 0%nat)
      \/ (exists len entries,
            page = appendChildTo isAnchor (comboDisplay (headerText name len) entries)
                     (removeById panelId doc))
         /\ count (hasId panelId) page = 1%nat).
Proof.
  intros Hone page. destruct (removeById_count doc) as [Hid _].
  assert (Hzero : count (hasId panelId) (removeById panelId doc) = 0%nat) by lia.
  assert (Hcases :
    (page = removeById panelId doc /\ count (hasId panelId) page = 0%nat)
    \/ (exists len entries,
          page = appendChildTo isAnchor (comboDisplay (headerText name len) entries)
                   (removeById panelId doc))
       /\ count (hasId panelId) page = 1%nat).
  { subst page.
    destruct (render_outcomes name comboData doc)
      as [-> | [[-> _] | (tag & i & classes & attrs & children & len & combos & entries
                          & Ha & _ & _ & He & ->)]];
      cbn [pageAfter]; [left; auto | left; auto|].
    right. split; [exists len, entries; reflexivity|].
    destruct (append_first isAnchor (comboDisplay (headerText name len) entries)
                _ _ _ _ _ _ isAnchor_shallow Ha) as (page' & Hrw & _ & Hcount).
    unfold appendChildTo. rewrite Hrw, (Hcount (hasId panelId) (hasId_shallow panelId)).
    unfold comboDisplay. rewrite countIn_element. cbn [count].
    rewrite !countIn_element, (entries_no_id combos entries He), Hzero.
    reflexivity. }
  split; [|exact Hcases].
  destruct Hcases as [[_ ->] | [_ ->]]; lia.
Qed.

(** ** One cycle *)

(** X24: one cycle of resolve, fetch and render.  Without a card name
    nothing happens: no request, no cache write, no call of the renderer.
    With one, the renderer receives the name (not empty, trimmed) and what
    the fetcher returned for it, which on a cache that holds the invariant
    is [null] or a non-empty array, never an empty one; the world is the
    one the fetcher left. *)
Theorem fetchCombo_cycle
    (queryDataHash : jsstring -> document -> completion (option node))
    net tGet tSet doc docLater w :
  cacheInvariant (cache w) ->
  match fst (fetchCombo queryDataHash net tGet tSet doc docLater w) with
  | Idle =>
      getCurrentDisplayCardName queryDataHash doc = Normal JNull
      /\ snd (fetchCombo queryDataHash net tGet tSet doc docLater w) = w
  | ResolverThrew =>
      getCurrentDisplayCardName queryDataHash doc = Throw
      /\ snd (fetchCombo queryDataHash net tGet tSet doc docLater w) = w
  | Rendered o =>
      exists name,
        getCurrentDisplayCardName queryDataHash doc = Normal (JStr name)
        /\ name <> [] /\ trimmedString name
        /\ o = displayComboResults name (fst (fetchComboData net tGet tSet name w)) docLater
        /\ snd (fetchCombo queryDataHash net tGet tSet doc docLater w)
           = snd (fetchComboData net tGet tSet name w)
        /\ validEntry (fst (fetchComboData net tGet tSet name w))
        /\ fst (fetchComboData net tGet tSet name w) <> JArr []
  end.
Proof.
  intros Hw. unfold fetchCombo.
  destruct (getCurrentDisplayCardName queryDataHash doc) as [v|] eqn:Hv; [|split; reflexivity].
  destruct (getCurrentDisplayCardName_name _ doc v Hv) as [-> | (name & -> & Hne & Htrim)].
  - simpl. split; reflexivity.
  - assert (Ht : truthy (JStr name) = true) by (destruct name; [congruence | reflexivity]).
    rewrite Ht.
    destruct (fetchComboData net tGet tSet name w) as [combo w'] eqn:Hf. simpl.
    exists name. rewrite Hf. cbn [fst snd].
    split; [reflexivity|]. split; [exact Hne|]. split; [exact Htrim|].
    split; [reflexivity|]. split; [reflexivity|].
    assert (Hvalid : validEntry combo).
    { change combo with (fst (combo, w')). rewrite <- Hf.
      destruct (truthy (fst (TTLCache.get tGet name (cache w)))) eqn:Hhit.
      - rewrite (fetch_hit net tGet tSet name w Hhit). simpl.
        destruct (get_cases tGet name (cache w)) as [[-> _]|(it & Hit & _ & ->)];
          [left; reflexivity|].
        exact (Hw name it Hit).
      - rewrite (fetch_miss net tGet tSet name w Hhit).
        destruct (net _) as [|status body]; [left; reflexivity|].
        destruct (negb (ok status)); [destruct (status =? 403)%Z; left; reflexivity|].
        destruct body as [data|]; [|left; reflexivity].
        destruct (combosOfBody _ _ data) as [result|] eqn:Hres; [|left; reflexivity].
        exact (combosOfBody_valid _ _ _ _ Hres). }
    split; [exact Hvalid|].
    destruct Hvalid as [-> | (records & -> & Hnr & _)]; congruence.
Qed.

(** ** The further theorems at concrete inputs *)

Lemma cache_keys_independent_witness :
  js "a" <> js "b"
  /\ fst (TTLCache.get 5 (js "b") (TTLCache.set 1 (js "a") JNull
            (TTLCache.set 0 (js "b") (JBool true) TTLCache.default)))
     = JBool true.
Proof.
  assert (H1 : js "a" <> js "b") by discriminate.
  split; [exact H1|].
  rewrite (proj1 (cache_keys_independent 1 5 0 (js "a") (js "b") JNull
                    (TTLCache.set 0 (js "b") (JBool true) TTLCache.default) H1)).
  reflexivity.
Defined.

Lemma fetch_returns_cached_witness :
  let it := {| TTLCache.value := JArr (recordsOf sampleItems); TTLCache.timestamp := 0 |} in
  (TTLCache.cache (cache cachedWorld) !! sampleName = Some it
   /\ (5 - TTLCache.timestamp it <= TTLCache.ttl (cache cachedWorld))%Z
   /\ truthy (TTLCache.value it) = true)
  /\ fetchComboData netDown 5 6 sampleName cachedWorld
     = (JArr (recordsOf sampleItems), cachedWorld).
Proof.
  intros it.
  assert (H1 : TTLCache.cache (cache cachedWorld) !! sampleName = Some it) by reflexivity.
  assert (H2 : (5 - TTLCache.timestamp it <= TTLCache.ttl (cache cachedWorld))%Z)
    by (vm_compute; discriminate).
  assert (H3 : truthy (TTLCache.value it) = true) by reflexivity.
  split; [auto|].
  exact (fetch_returns_cached netDown 5 6 sampleName cachedWorld it H1 H2 H3).
Defined.

Lemma fetch_then_hit_witness :
  (truthy (fst (TTLCache.get 0 sampleName (cache initialWorld))) = false
   /\ net200 (comboUrl (formatCardName sampleName)) = FetchResponse 200 (Some sampleBody)
   /\ ok 200 = true
   /\ combosOfBody sampleName (formatCardName sampleName) sampleBody = Normal sampleResult
   /\ sampleResult <> JNull
   /\ (3600001 - 1 <= TTLCache.ttl (cache initialWorld))%Z)
  /\ fst (fetchComboData netDown 3600001 3600002 sampleName
            (snd (fetchComboData net200 0 1 sampleName initialWorld)))
     = sampleResult.
Proof.
  assert (H1 : truthy (fst (TTLCache.get 0 sampleName (cache initialWorld))) = false)
    by reflexivity.
  assert (H2 : net200 (comboUrl (formatCardName sampleName))
               = FetchResponse 200 (Some sampleBody)) by reflexivity.
  assert (H3 : ok 200 = true) by reflexivity.
  assert (H4 : combosOfBody sampleName (formatCardName sampleName) sampleBody
               = Normal sampleResult) by (vm_compute; reflexivity).
  assert (H5 : sampleResult <> JNull) by discriminate.
  assert (H6 : (3600001 - 1 <= TTLCache.ttl (cache initialWorld))%Z)
    by (vm_compute; discriminate).
  split; [auto 10|].
  rewrite (proj2 (proj2 (fetch_then_hit net200 netDown 0 1 3600001 3600002 sampleName
                           initialWorld 200 sampleBody sampleResult H1 H2 H3 H4 H5 H6))).
  reflexivity.
Defined.

Lemma fetch_failure_not_cached_witness :
  (truthy (fst (TTLCache.get 0 sampleName (cache initialWorld))) = false
   /\ netDown (comboUrl (formatCardName sampleName)) = FetchRejected)
  /\ fetchComboData netDown 0 1 sampleName initialWorld
     = (JNull, {| cache := TTLCache.default;
                  requests := [comboUrl (formatCardName sampleName)] |}).
Proof.
  assert (H1 : truthy (fst (TTLCache.get 0 sampleName (cache initialWorld))) = false)
    by reflexivity.
  assert (H2 : netDown (comboUrl (formatCardName sampleName)) = FetchRejected) by reflexivity.
  split; [auto|].
  exact (fetch_failure_not_cached netDown 0 1 sampleName initialWorld H1 (or_introl H2)).
Defined.

Lemma fetch_expired_refetches_witness :
  let it := {| TTLCache.value := JArr (recordsOf sampleItems); TTLCache.timestamp := 0 |} in
  (TTLCache.cache (cache cachedWorld) !! sampleName = Some it
   /\ (TTLCache.ttl (cache cachedWorld) < 3600001 - TTLCache.timestamp it)%Z)
  /\ requests (snd (fetchComboData netDown 3600001 3600002 sampleName cachedWorld))
     = [comboUrl (formatCardName sampleName)].
Proof.
  intros it.
  assert (H1 : TTLCache.cache (cache cachedWorld) !! sampleName = Some it) by reflexivity.
  assert (H2 : (TTLCache.ttl (cache cachedWorld) < 3600001 - TTLCache.timestamp it)%Z)
    by reflexivity.
  split; [auto|].
  exact (proj1 (fetch_expired_refetches netDown 3600001 3600002 sampleName cachedWorld it
                  H1 H2)).
Defined.

Lemma fetch_returns_valid_witness :
  cacheInvariant (cache initialWorld)
  /\ fst (fetchComboData net200 0 1 sampleName initialWorld) <> JArr [].
Proof.
  assert (H0 : cacheInvariant (cache initialWorld)).
  { unfold cacheInvariant. simpl. apply map_Forall_empty. }
  split; [exact H0|].
  exact (proj2 (fetch_returns_valid net200 0 1 sampleName initialWorld H0)).
Defined.

Lemma fetch_body_without_cardlists_witness :
  let netEmpty : jsstring -> FetchOutcome := fun _ => FetchResponse 200 (Some (JObj [])) in
  (truthy (fst (TTLCache.get 0 sampleName (cache initialWorld))) = false
   /\ netEmpty (comboUrl (formatCardName sampleName)) = FetchResponse 200 (Some (JObj []))
   /\ ok 200 = true
   /\ getProp (JObj []) s_container = Normal JUndefined
   /\ truthy (optProp (optProp JUndefined s_json_dict) s_cardlists) = false)
  /\ fst (fetchComboData netEmpty 0 1 sampleName initialWorld) = JNull
  /\ TTLCache.cache (cache (snd (fetchComboData netEmpty 0 1 sampleName initialWorld)))
       !! sampleName
     = Some {| TTLCache.value := JNull; TTLCache.timestamp := 1 |}.
Proof.
  intros netEmpty.
  assert (H1 : truthy (fst (TTLCache.get 0 sampleName (cache initialWorld))) = false)
    by reflexivity.
  assert (H2 : netEmpty (comboUrl (formatCardName sampleName))
               = FetchResponse 200 (Some (JObj []))) by reflexivity.
  assert (H3 : ok 200 = true) by reflexivity.
  assert (H4 : getProp (JObj []) s_container = Normal JUndefined) by reflexivity.
  assert (H5 : truthy (optProp (optProp JUndefined s_json_dict) s_cardlists) = false)
    by reflexivity.
  split; [auto 10|].
  rewrite (fetch_body_without_cardlists netEmpty 0 1 sampleName initialWorld 200 (JObj [])
             JUndefined H1 H2 H3 H4 H5).
  split; [reflexivity|]. simpl. apply lookup_insert_eq.
Defined.

Lemma fetch_touches_own_key_only_witness :
  js "Sol Ring" <> sampleName
  /\ TTLCache.cache (cache (snd (fetchComboData netDown 3600001 3600002 (js "Sol Ring")
                                   cachedWorld))) !! sampleName
     = TTLCache.cache (cache cachedWorld) !! sampleName.
Proof.
  assert (H1 : sampleName <> js "Sol Ring") by discriminate.
  split; [congruence|].
  exact (fetch_touches_own_key_only netDown 3600001 3600002 (js "Sol Ring") cachedWorld
           sampleName H1).
Defined.

Lemma render_replaces_previous_witness :
  (count (hasId panelId) pageWithPanel <= 1)%nat
  /\ displayComboResults (js "b") JNull
       (pageAfter (displayComboResults (js "a") (JArr (recordsOf sampleItems)) pageWithPanel))
     = displayComboResults (js "b") JNull pageWithPanel.
Proof.
  assert (H1 : (count (hasId panelId) pageWithPanel <= 1)%nat) by (vm_compute; lia).
  split; [exact H1|].
  exact (render_replaces_previous (js "a") (JArr (recordsOf sampleItems)) (js "b") JNull
           pageWithPanel H1).
Defined.

Lemma render_lists_every_combo_witness :
  let anchorClasses := [js "deckview-image-container"; js "is-owner"] in
  forallb textualItem sampleItems = true
  /\ findFirst isAnchor (removeById panelId pageWithPanel)
    = Some (Element (js "aside") [] anchorClasses [] [])
  /\ displayComboResults sampleName (JArr (recordsOf sampleItems)) pageWithPanel
     = Returned
         [Element (js "aside") [] anchorClasses []
            [comboDisplay (js "Combo For Dockside Extortionist (2)") (entriesOf sampleItems)]].
Proof.
  intros anchorClasses.
  assert (H1 : findFirst isAnchor (removeById panelId pageWithPanel)
               = Some (Element (js "aside") [] anchorClasses [] []))
    by reflexivity.
  assert (H0 : forallb textualItem sampleItems = true) by reflexivity.
  split; [exact H0|]. split; [exact H1|].
  rewrite (proj1 (render_lists_every_combo sampleName sampleItems pageWithPanel
                    _ _ _ _ _ H0 H1)).
  vm_compute. reflexivity.
Defined.

Lemma render_keeps_single_panel_witness :
  (count (hasId panelId) pageWithPanel <= 1)%nat
  /\ (count (hasId panelId)
        (pageAfter (displayComboResults sampleName (JArr (recordsOf sampleItems))
                      pageWithPanel)) <= 1)%nat.
Proof.
  assert (H1 : (count (hasId panelId) pageWithPanel <= 1)%nat) by (vm_compute; lia).
  split; [exact H1|].
  exact (proj1 (render_keeps_single_panel sampleName (JArr (recordsOf sampleItems))
                  pageWithPanel H1)).
Defined.

Lemma fetchCombo_cycle_witness :
  cacheInvariant (cache initialWorld)
  /\ exists name,
       getCurrentDisplayCardName byDataHash deckPage = Normal (JStr name)
       /\ fst (fetchCombo byDataHash net200 0 1 deckPage deckPage initialWorld)
          = Rendered (displayComboResults name
                        (fst (fetchComboData net200 0 1 name initialWorld)) deckPage).
Proof.
  assert (H0 : cacheInvariant (cache initialWorld)).
  { unfold cacheInvariant. simpl. apply map_Forall_empty. }
  split; [exact H0|].
  pose proof (fetchCombo_cycle byDataHash net200 0 1 deckPage deckPage initialWorld H0) as Hc.
  destruct (fst (fetchCombo byDataHash net200 0 1 deckPage deckPage initialWorld)) as [| |o].
  - destruct Hc as [Hn _]. vm_compute in Hn. discriminate Hn.
  - destruct Hc as [Hn _]. vm_compute in Hn. discriminate Hn.
  - destruct Hc as (name & Hname & _ & _ & Ho & _). exists name.
    split; [exact Hname|]. rewrite Ho. reflexivity.
Defined.
